(** * The lead sheet access layer

    A shallow embedding of the [GoogleSheets] client (GoogleSheets.ts) and of
    the submit handler of the add-lead dialog, followed by the properties of
    the access layer that are checked against them.

    Conventions of the embedding.
    - A JavaScript string is a Rocq [string] (a sequence of 8-bit characters;
      the non-ASCII literals of the source are spelled in UTF-8).
      [charCodeAt] is the character code, which is the JavaScript one on
      ASCII text: column letters, identifiers, URLs.
    - A JavaScript number that holds an integer is a [Z].  The numbers of
      this code (column indices, row numbers, timestamps) are integers; a
      double represents them exactly up to 2^53, and [columnToIndex], whose
      loop can leave that range, rounds as doubles do ([roundNumber], see
      [columnToIndex_exact] and [columnToIndex_bound]).
    - [undefined] is [None].
    - A plain object is the list of its own entries in [Object.entries]
      order; property names are ordinary field names (the members that
      every object inherits, and [__proto__], are outside the model).  An
      array is the list of its elements together with the non-index
      properties that an assignment [a[i] = v] with [i] outside the index
      range creates.
    - [async] code is sequential code in a monad that records every effect
      (network call, alert, console line, UI call) and ends in a value or
      in a thrown error. *)

From Stdlib Require Import ZArith Lia Ascii String DecimalString DecimalPos DecimalZ.
From stdpp Require Import base list strings.

Local Open Scope Z_scope.

(** ** JavaScript primitives used by the client *)

Module Js.

(** [s.charCodeAt(i)] of one character. *)
Definition charCode (c : ascii) : Z := Z.of_nat (nat_of_ascii c).

(** Truthiness of a string: every string but the empty one. *)
Definition truthy (s : string) : bool :=
  match s with
  | EmptyString => false
  | String _ _ => true
  end.

(** Truthiness of a possibly undefined string. *)
Definition truthy_opt (v : option string) : bool :=
  match v with
  | Some s => truthy s
  | None => false
  end.

(** [v || d] where [v] is a string or undefined and [d] a string. *)
Definition or_else (v : option string) (d : string) : string :=
  match v with
  | Some s => if truthy s then s else d
  | None => d
  end.

(** Numbers are IEEE 754 doubles.  The result of an operation on integers
    is the exact result rounded to the nearest double, ties to the even
    significand of 53 bits: exact up to 2^53, and [Infinity] once the
    rounded value reaches 2^1024.  [INFINITY] stands for [Infinity] and its
    opposite for [-Infinity]. *)
Definition INFINITY : Z := 2 ^ 1024.

Definition roundNumber (x : Z) : Z :=
  let a := Z.abs x in
  if a <=? 2 ^ 53 then x
  else
    let ulp := 2 ^ (Z.log2 a - 52) in
    let q := a / ulp in
    let r := a mod ulp in
    let q' := if 2 * r <? ulp then q
              else if ulp <? 2 * r then q + 1
              else if Z.even q then q else q + 1 in
    Z.sgn x * Z.min (q' * ulp) INFINITY.

(** [`${n}`] for an integer number [n] (decimal, a leading minus sign for
    negatives; JavaScript switches to exponent notation from 1e21 on). *)
Definition numberToString (n : Z) : string :=
  NilZero.string_of_int (Z.to_int n).

(** [`${v}`] for a possibly undefined string. *)
Definition template_opt (v : option string) : string :=
  match v with
  | Some s => s
  | None => "undefined"
  end.

(** [s.startsWith(p)]. *)
Fixpoint startsWith (s p : string) : bool :=
  match p with
  | EmptyString => true
  | String b p' =>
      match s with
      | EmptyString => false
      | String a s' => if Ascii.eqb a b then startsWith s' p' else false
      end
  end.

(** [s.includes(sub)]: [sub] starts at some position of [s]. *)
Fixpoint includes (s sub : string) : bool :=
  startsWith s sub ||
  match s with
  | EmptyString => false
  | String _ s' => includes s' sub
  end.

(** The rest of [s] after the prefix [p], when [s] starts with [p]. *)
Fixpoint stripPrefix (p s : string) : option string :=
  match p with
  | EmptyString => Some s
  | String b p' =>
      match s with
      | EmptyString => None
      | String a s' => if Ascii.eqb a b then stripPrefix p' s' else None
      end
  end.

(** The longest prefix of [s] whose characters satisfy [f] (what a greedy
    [[class]*] consumes). *)
Fixpoint takeWhile (f : ascii -> bool) (s : string) : string :=
  match s with
  | EmptyString => EmptyString
  | String a s' => if f a then String a (takeWhile f s') else EmptyString
  end.

(** Lookup of an own property in a list of entries. *)
Fixpoint assoc {V : Type} (k : string) (l : list (string * V)) : option V :=
  match l with
  | [] => None
  | (k', v) :: l' => if String.eqb k k' then Some v else assoc k l'
  end.

(** A plain object whose values are strings or undefined, as
    [Partial<SheetLead>] and the records built by [fetchLeads]. *)
Definition object := list (string * option string).

(** [o[k]]. *)
Definition obj_get (o : object) (k : string) : option string :=
  match assoc k o with
  | Some v => v
  | None => None
  end.

(** [o[k] = v]: an existing key keeps its place, a new key goes last. *)
Fixpoint obj_set (o : object) (k : string) (v : option string) : object :=
  match o with
  | [] => [(k, v)]
  | (k', v') :: o' =>
      if String.eqb k k' then (k', v) :: o' else (k', v') :: obj_set o' k v
  end.

(** Arrays.  [elems] are the elements ([None] is a hole or [undefined]),
    [props] the properties whose key is a number that is not an array
    index (negative, or 2^32 - 1 and above), most recent first. *)
Record array := Array { elems : list (option string); props : list (Z * string) }.

Definition MAX_ARRAY_LENGTH : Z := 2 ^ 32 - 1.

Definition is_index (i : Z) : bool := (0 <=? i) && (i <? MAX_ARRAY_LENGTH).

Fixpoint prop_get (i : Z) (ps : list (Z * string)) : option string :=
  match ps with
  | [] => None
  | (j, v) :: ps' => if Z.eqb i j then Some v else prop_get i ps'
  end.

(** [a[i]] for an integer [i]. *)
Definition arr_get (a : array) (i : Z) : option string :=
  if is_index i then mjoin (elems a !! Z.to_nat i) else prop_get i (props a).

(** [a[i] = v] for an integer [i]: inside the array the element is
    replaced, past its end the array grows (the gap is holes), and outside
    the index range an ordinary property is set. *)
Definition arr_set (a : array) (i : Z) (v : string) : array :=
  if is_index i then
    if (Z.to_nat i <? length (elems a))%nat then
      Array (<[Z.to_nat i := Some v]> (elems a)) (props a)
    else
      Array (elems a ++ replicate (Z.to_nat i - length (elems a))%nat None ++ [Some v])
            (props a)
  else Array (elems a) ((i, v) :: props a).

(** An array read from JSON: elements only. *)
Definition arr_of_list (l : list string) : array := Array (Some <$> l) [].

(** [Math.max(...xs)]; [None] is [-Infinity], the maximum of nothing. *)
Definition Math_max (xs : list Z) : option Z :=
  match xs with
  | [] => None
  | x :: xs' => Some (foldr Z.max x xs')
  end.

End Js.

(** ** Effects: the provider, the browser and the monad of [async] code *)

Module Eff.

(** A thrown error: the name of its class ([Error], [TypeError],
    [ReferenceError], ...) and its message. *)
Record error := mkError { errorName : string; errorMessage : string }.

(** [new Error(message)].  A string where an error is expected stands for
    this error. *)
Definition Error (message : string) : error := mkError "Error" message.
Coercion Error : string >-> error.

(** How a computation ends: with a value, or with a thrown error. *)
Inductive result (A : Type) : Type :=
| Ok (a : A)
| Throw (msg : error).
Arguments Ok {A} a.
Arguments Throw {A} msg.

Inductive http_method := GET | POST.

(** Request bodies of the four calls the client makes. *)
Inductive req_body :=
| NoBody
| FormBody (form : string)
| AppendBody (row : list (option string))
| BatchBody (data : list (string * option string)).

Record request := Request {
  req_method : http_method;
  req_url : string;
  req_bearer : option string;
  req_body_of : req_body
}.

(** The parsed JSON of a response, as far as the client looks into it:
    [values], [access_token], [error.message], and its [JSON.stringify]. *)
Record json_body := JsonBody {
  values : option (list (list string));
  access_token : option string;
  error_message : option string;
  json_text : string
}.

(** A response: [res.ok], [res.statusText], [await res.text()] and
    [await res.json()], which throws when the body is not JSON. *)
Record response := Response {
  ok : bool;
  statusText : string;
  text : string;
  json : result json_body
}.

Inductive console_level := LogLevel | WarnLevel | ErrorLevel.

Inductive toast_variant := DefaultToast | DestructiveToast.

(** Every observable effect of the modelled code. *)
Inductive event :=
| Net (req : request)
| Alert (msg : string)
| Console (level : console_level) (args : list string)
| Toast (variant : toast_variant) (title description : string)
| SetSaving (b : bool)
| SetShowProtectionError (b : bool)
| OnSuccess
| OnClose.

(** What the code cannot decide itself: the provider's answer to each
    request ([fetch] may reject), the clock, and the platform functions
    [encodeURIComponent] and the JWT signing of [getAccessToken]. *)
Record world := World {
  net : request -> result response;
  now : Z;
  today : string;
  encodeURIComponent : string -> string;
  signJwt : string -> Z -> result string
}.

(** A computation: the effects it performed, in order, and how it ended. *)
Definition M (A : Type) : Type := list event * result A.

Definition ret {A} (a : A) : M A := ([], Ok a).

Definition throw {A} (msg : error) : M A := ([], Throw msg).

Definition bind {A B} (m : M A) (k : A -> M B) : M B :=
  match m with
  | (tr, Ok a) => let (tr', r) := k a in (tr ++ tr', r)
  | (tr, Throw msg) => (tr, Throw msg)
  end.

(** [try { m } catch (err) { h err }]. *)
Definition try_catch {A} (m : M A) (h : error -> M A) : M A :=
  match m with
  | (tr, Ok a) => (tr, Ok a)
  | (tr, Throw msg) => let (tr', r) := h msg in (tr ++ tr', r)
  end.

(** [try { m } finally { f }] where [f] does not throw. *)
Definition finally {A} (m : M A) (f : list event) : M A :=
  let (tr, r) := m in (tr ++ f, r).

Definition emit (e : event) : M unit := ([e], Ok tt).

(** Lifting of a result that has no effect of its own. *)
Definition lift {A} (r : result A) : M A := ([], r).

(** [await fetch(url, init)]. *)
Definition fetch (w : world) (req : request) : M response :=
  ([Net req], net w req).

Definition trace {A} (m : M A) : list event := fst m.

(** The requests of a trace, and the bodies of its batch writes. *)
Definition netCalls (tr : list event) : list request :=
  omap (fun e => match e with Net req => Some req | _ => None end) tr.

Definition batchWrites (tr : list event) : list (list (string * option string)) :=
  omap (fun e => match e with
                 | Net (Request _ _ _ (BatchBody data)) => Some data
                 | _ => None
                 end) tr.

Definition outcome {A} (m : M A) : result A := snd m.

End Eff.

Import Js Eff.

Notation "x <- m ;; k" := (bind m (fun x => k))
  (at level 100, m at next level, right associativity).
Notation "m ;;; k" := (bind m (fun _ => k))
  (at level 100, right associativity).

(** ** The configuration module [localSecrets]

    GoogleSheets.ts imports it from './localSecrets'; it is plain data, so
    the constructor takes it as an argument. *)

Module LocalSecrets.

Record t := Make {
  spreadsheetUrl : string;
  worksheetNames : list string;
  columnMappings : list (string * string);
  serviceAccountJson : string;
  googleApiKey : string
}.

End LocalSecrets.

(** ** class GoogleSheets *)

Module GoogleSheets.

Definition SHEETS_API_BASE : string :=
  "https://sheets.googleapis.com/v4/spreadsheets".

(** The column mapping [Record<string, string>]: field name to column
    letters, in [Object.entries] order. *)
Definition mapping := list (string * string).

(** The private fields of the class. *)
Record t := Make {
  sheetId : string;
  worksheetNames : list string;
  columnMappings : mapping;
  serviceAccountJson : string;
  apiKey : string
}.

(** The character class [[a-zA-Z0-9-_]]: the three ranges, then the two
    literals '-' (45) and '_' (95). *)
Definition isIdChar (c : ascii) : bool :=
  let n := charCode c in
  ((97 <=? n) && (n <=? 122)) || ((65 <=? n) && (n <=? 90)) ||
  ((48 <=? n) && (n <=? 57)) || (n =? 45) || (n =? 95).

(** A match of [/\/spreadsheets\/d\/([a-zA-Z0-9-_]+)/] that starts at the
    head of [url]: the literal, then the greedy capture, which has to take
    at least one character. *)
Definition matchHere (url : string) : option string :=
  match stripPrefix "/spreadsheets/d/" url with
  | Some rest =>
      let id := takeWhile isIdChar rest in
      if truthy id then Some id else None
  | None => None
  end.

(** [url.match(re)]: the leftmost start position that matches; the result
    is capture group 1. *)
Fixpoint matchSheetId (url : string) : option string :=
  match matchHere url with
  | Some id => Some id
  | None =>
      match url with
      | EmptyString => None
      | String _ url' => matchSheetId url'
      end
  end.

Definition extractSheetId (url : string) : string :=
  match matchSheetId url with
  | Some id => id
  | None => ""
  end.

(** [constructor()]. *)
Definition new (localSecrets : LocalSecrets.t) : t :=
  {| sheetId := extractSheetId (LocalSecrets.spreadsheetUrl localSecrets);
     worksheetNames := LocalSecrets.worksheetNames localSecrets;
     columnMappings := LocalSecrets.columnMappings localSecrets;
     serviceAccountJson := LocalSecrets.serviceAccountJson localSecrets;
     apiKey := LocalSecrets.googleApiKey localSecrets |}.

(** The loop of [columnToIndex], [index] being the accumulator: a
    multiplication and an addition of doubles at each letter. *)
Fixpoint columnLoop (index : Z) (col : string) : Z :=
  match col with
  | EmptyString => index
  | String c rest =>
      columnLoop
        (roundNumber (roundNumber (index * 26) + (charCode c - charCode "A" + 1)))
        rest
  end.

Definition columnToIndex (col : string) : Z := roundNumber (columnLoop 0 col - 1).

(** [this.worksheetNames[0] || 'MASTER DATA']. *)
Definition worksheetName (this : t) : string :=
  or_else (worksheetNames this !! 0%nat) "MASTER DATA".

(** The [Authorization] header [`Bearer ${token}`]. *)
Definition bearer (token : option string) : option string :=
  Some ("Bearer " +:+ template_opt token).

(** The token exchange: the POST of the signed assertion. *)
Definition tokenRequest (jwt : string) : request :=
  Request POST "https://oauth2.googleapis.com/token" None
    (FormBody ("grant_type=urn:ietf:params:oauth:grant-type:jwt-bearer&assertion=" +:+ jwt)).

(** [getAccessToken].  Parsing the service account, importing the key and
    signing the claim set (iat = floor(now / 1000)) is the platform's
    [signJwt]; the token endpoint answers the exchange. *)
Definition getAccessToken (w : world) (this : t) : M (option string) :=
  if negb (truthy (serviceAccountJson this)) then
    throw "Service Account JSON required."
  else
    jwt <- lift (signJwt w (serviceAccountJson this) (now w / 1000)) ;;
    res <- fetch w (tokenRequest jwt) ;;
    if negb (ok res) then throw "Failed to get access token."
    else
      data <- lift (json res) ;;
      ret (access_token data).

(** The body of the [rows.map] callback of [fetchLeads]: the record of one
    row. *)
Definition rowToRecord (cm : mapping) (row : array) : object :=
  fold_left
    (fun lead e => obj_set lead e.1 (Some (or_else (arr_get row (columnToIndex e.2)) "")))
    cm [].

(** The GET of [fetchLeads]: the fixed range, read with the API key. *)
Definition fetchRequest (w : world) (this : t) : request :=
  let worksheetName := worksheetName this in
  let range := worksheetName +:+ "!A2:AZ10000" in
  let url := SHEETS_API_BASE +:+ "/" +:+ sheetId this +:+ "/values/" +:+
             encodeURIComponent w range +:+ "?key=" +:+ apiKey this in
  Request GET url None NoBody.

Definition fetchLeads (w : world) (this : t) : M (list object) :=
  let cm := columnMappings this in
  res <- fetch w (fetchRequest w this) ;;
  if negb (ok res) then throw "Failed to fetch leads."
  else
    data <- lift (json res) ;;
    let rows := default [] (values data) in
    ret (map (fun row => rowToRecord cm (arr_of_list row)) rows).

(** [new Array(len).fill(v)]; [len = None] is [-Infinity]. *)
Definition new_Array_fill (len : option Z) (v : string) : result array :=
  match len with
  | Some n =>
      if (0 <=? n) && (n <=? MAX_ARRAY_LENGTH)
      then Ok (Array (replicate (Z.to_nat n) (Some v)) [])
      else Throw (mkError "RangeError" "Invalid array length")
  | None => Throw (mkError "RangeError" "Invalid array length")
  end.

(** One turn of the loop of [appendLead] over the entries of the mapping. *)
Definition appendCell (now : Z) (lead : object) (row : array) (e : string * string) : array :=
  if String.eqb e.1 "tripId" then
    arr_set row (columnToIndex e.2)
      (or_else (obj_get lead "tripId") ("T" +:+ numberToString now))
  else
    match obj_get lead e.1 with
    | Some v => arr_set row (columnToIndex e.2) v
    | None => row
    end.

(** The row that [appendLead] builds (lines 614-621). *)
Definition recordToRow (now : Z) (cm : mapping) (lead : object) : result array :=
  let maxCol := Math_max (map (fun e => columnToIndex e.2) cm) in
  match new_Array_fill ((fun m => m + 1) <$> maxCol) "" with
  | Ok row => Ok (fold_left (appendCell now lead) cm row)
  | Throw msg => Throw msg
  end.

(** The POST of [appendLead]; [JSON.stringify] keeps the elements of the
    row. *)
Definition appendRequest (w : world) (this : t) (token : option string)
    (row : array) : request :=
  let worksheetName := worksheetName this in
  let url := SHEETS_API_BASE +:+ "/" +:+ sheetId this +:+ "/values/" +:+
             encodeURIComponent w worksheetName +:+
             ":append?valueInputOption=USER_ENTERED" in
  Request POST url (bearer token) (AppendBody (elems row)).

Definition appendLead (w : world) (this : t) (lead : object) : M unit :=
  token <- getAccessToken w this ;;
  let cm := columnMappings this in
  row <- lift (recordToRow (now w) cm lead) ;;
  res <- fetch w (appendRequest w this token row) ;;
  if negb (ok res) then throw ("Failed to append lead: " +:+ text res)
  else ret tt.

(** [l.findIndex(f)], [-1] when no element satisfies [f]. *)
Fixpoint findIndex {A : Type} (f : A -> bool) (l : list A) : Z :=
  match l with
  | [] => -1
  | x :: l' =>
      if f x then 0
      else let r := findIndex f l' in if r =? -1 then -1 else r + 1
  end.

(** Step 1 of [updateLead] after the key column is read (lines 659-665):
    the physical row of [tripId], [None] when it is not in the column. *)
Definition findRowByKey (tripId : string) (colVals : list string) : option Z :=
  let rowIndex := findIndex (fun v => String.eqb v tripId) colVals in
  if rowIndex =? -1 then None else Some (rowIndex + 2).

(** Step 2 of [updateLead] (lines 668-673): the entries of [updates] whose
    value is defined and whose key has a truthy mapping entry, each turned
    into a range and its value. *)
Definition keepUpdate (cm : mapping) (e : string * option string) : bool :=
  match e.2 with
  | Some _ => truthy_opt (assoc e.1 cm)
  | None => false
  end.

Definition cellWrite (worksheetName : string) (cm : mapping) (rowNumber : Z)
    (e : string * option string) : string * option string :=
  (worksheetName +:+ "!" +:+ template_opt (assoc e.1 cm) +:+ numberToString rowNumber,
   e.2).

Definition recordToCellWrites (worksheetName : string) (cm : mapping)
    (updates : object) (rowNumber : Z) : list (string * option string) :=
  map (cellWrite worksheetName cm rowNumber) (List.filter (keepUpdate cm) updates).

(** [(dataFind.values && dataFind.values[0]) || []]. *)
Definition firstColumn (dataFind : json_body) : list string :=
  match values dataFind with
  | Some (col :: _) => col
  | _ => []
  end.

(** [`${err.message || err}`]: the message, and for an error without
    message the string of the error itself, which is then the name of its
    class. *)
Definition errorText (err : error) : string :=
  if truthy (errorMessage err) then errorMessage err else errorName err.

(** The read of the key column (rows 2 to 10000) in [updateLead]. *)
Definition findRequest (w : world) (this : t) (token : option string) : request :=
  let worksheetName := worksheetName this in
  let cm := columnMappings this in
  let tripIdCol := or_else (assoc "tripId" cm) "A" in
  let range := worksheetName +:+ "!" +:+ tripIdCol +:+ "2:" +:+ tripIdCol +:+ "10000" in
  let findUrl := SHEETS_API_BASE +:+ "/" +:+ sheetId this +:+ "/values/" +:+
                 encodeURIComponent w range +:+ "?majorDimension=COLUMNS" in
  Request GET findUrl (bearer token) NoBody.

(** The batch write of [updateLead]. *)
Definition batchRequest (this : t) (token : option string)
    (data : list (string * option string)) : request :=
  let batchUrl := SHEETS_API_BASE +:+ "/" +:+ sheetId this +:+ "/values:batchUpdate" in
  Request POST batchUrl (bearer token) (BatchBody data).

Definition updateLead (w : world) (this : t) (tripId : string) (updates : object) : M unit :=
  try_catch
    (token <- getAccessToken w this ;;
     let worksheetName := worksheetName this in
     let cm := columnMappings this in
     resFind <- fetch w (findRequest w this token) ;;
     dataFind <- lift (json resFind) ;;
     if negb (ok resFind) then
       throw ("Failed to read Trip IDs: " +:+ json_text dataFind)
     else
       match findRowByKey tripId (firstColumn dataFind) with
       | None =>
           (emit (Alert ("⚠️ Trip ID " +:+ tripId +:+ " not found in Google Sheet.")) ;;;
            throw ("Trip ID " +:+ tripId +:+ " not found."))
       | Some rowNumber =>
           let data := recordToCellWrites worksheetName cm updates rowNumber in
           if (length data =? 0)%nat then
             emit (Console WarnLevel ["No valid fields to update for lead:"; tripId])
           else
             res <- fetch w (batchRequest this token data) ;;
             result <- lift (json res) ;;
             if negb (ok res) then
               (emit (Console ErrorLevel ["❌ Google Sheet update failed:"; json_text result]) ;;;
                emit (Alert ("❌ Lead update failed: " +:+
                             or_else (error_message result) (statusText res))))
             else
               (emit (Console LogLevel ["✅ Lead updated in Sheet:"; json_text result]) ;;;
                emit (Alert "✅ Lead updated in Sheet successfully!"))
       end)
    (fun err =>
       emit (Console ErrorLevel ["UpdateLead error:"; errorMessage err]) ;;;
       emit (Alert ("❌ Error updating lead: " +:+ errorText err))).

End GoogleSheets.

(** ** The add-lead dialog: [handleSubmit] *)

Module AddLeadDialog.

(** The state of the form. *)
Record formData := FormData {
  tripId : string;
  travellerName : string;
  phone : string;
  email : string;
  travelDate : string;
  travelState : string;
  nights : string;
  pax : string;
  hotelCategory : string;
  mealPlan : string;
  status : string;
  remarks : string
}.

(** The lead object that [handleSubmit] passes to [appendLead]; [userName]
    is the value of [session?.user.name]. *)
Definition leadOfForm (w : world) (userName : option string) (f : formData) : object :=
  [ ("tripId", Some (tripId f));
    ("date", Some (today w));
    ("consultant", Some (or_else userName ""));
    ("status", Some (status f));
    ("travellerName", Some (travellerName f));
    ("travelDate", Some (travelDate f));
    ("travelState", Some (travelState f));
    ("remarks", Some (remarks f));
    ("nights", Some (nights f));
    ("pax", Some (pax f));
    ("hotelCategory", Some (hotelCategory f));
    ("mealPlan", Some (mealPlan f));
    ("phone", Some (phone f));
    ("email", Some (email f)) ].

(** What [authLib.getSession()] returns, as far as the handler reads it: a
    session object with its [user], which may be missing, and the [name] of
    the user, which may be missing too.  No session (null or undefined) is
    [None]. *)
Record session := Session { user : option (option string) }.

(** [session?.user.name]: undefined without a session, and a [TypeError]
    for a session without user. *)
Definition userName (s : option session) : result (option string) :=
  match s with
  | None => Ok None
  | Some (Session None) =>
      Throw (mkError "TypeError" "Cannot read properties of undefined (reading 'name')")
  | Some (Session (Some name)) => Ok name
  end.

(** The two names that [handleSubmit] reads and that its module neither
    imports nor declares (the imports are [authService] and
    [GoogleSheetsService]): [authLib] and [GoogleSheetsBackendService].
    They are looked up in the global scope of the host when the handler
    runs.  [None] is a name the host does not define.  For a name it does
    define: how [authLib.getSession()] ends, and how
    [new GoogleSheetsBackendService()] ends, the instance being kept as its
    [appendLead]. *)
Record globals := Globals {
  authLib : option (result (option session));
  GoogleSheetsBackendService : option (result (object -> M unit))
}.


(** Reading a global: an undefined name throws a [ReferenceError]. *)
Definition readGlobal {A} (name : string) (g : option (result A)) : result A :=
  match g with
  | Some r => r
  | None => Throw (mkError "ReferenceError" (name +:+ " is not defined"))
  end.

(** [handleSubmit]. *)
Definition handleSubmit (g : globals) (w : world) (f : formData) : M unit :=
  emit (SetSaving true) ;;;
  finally
    (try_catch
       (session <- lift (readGlobal "authLib" (authLib g)) ;;
        sheetsService <- lift (readGlobal "GoogleSheetsBackendService"
                                 (GoogleSheetsBackendService g)) ;;
        name <- lift (userName session) ;;
        sheetsService (leadOfForm w name f) ;;;
        emit (Toast DefaultToast "Lead added successfully"
                "The lead has been added to Google Sheets") ;;;
        emit OnSuccess ;;;
        emit OnClose)
       (fun error =>
          if truthy (errorMessage error) && includes (errorMessage error) "protected" then
            emit (SetShowProtectionError true)
          else
            emit (Toast DestructiveToast "Error adding lead" (errorMessage error))))
    [SetSaving false].

(** The options of the two selects of the form. *)
Definition LEAD_STATUSES : list string :=
  [ "Unfollowed"; "Follow-up Calls"; "Working on it"; "Proposal 1 Shared";
    "Proposal 2 Shared"; "Proposal 3 Shared"; "Negotiations"; "Hot Leads";
    "Booked With Us" ].

Definition HOTEL_CATEGORIES : list string :=
  ["Basic"; "3 Star"; "3 Star Plus"; "4 Star"; "5 Star"].

End AddLeadDialog.

(** ** More JavaScript primitives, used by the dashboards

    As everywhere in this file they are the JavaScript functions on ASCII
    text: JavaScript also lower-cases the letters outside ASCII and trims
    the white space outside ASCII. *)

Module JsText.

(** [s.toLowerCase()] on ASCII text: 'A'..'Z' become 'a'..'z', every other
    character stays. *)
Definition lowerChar (c : ascii) : ascii :=
  if (65 <=? charCode c) && (charCode c <=? 90)
  then ascii_of_nat (nat_of_ascii c + 32)
  else c.

Fixpoint toLowerCase (s : string) : string :=
  match s with
  | EmptyString => EmptyString
  | String c s' => String (lowerChar c) (toLowerCase s')
  end.

(** White space of ASCII text: tab, line feed, vertical tab, form feed,
    carriage return and space. *)
Definition isSpace (c : ascii) : bool :=
  ((9 <=? charCode c) && (charCode c <=? 13)) || (charCode c =? 32).

Fixpoint trimStart (s : string) : string :=
  match s with
  | EmptyString => EmptyString
  | String c s' => if isSpace c then trimStart s' else s
  end.

Fixpoint trimEnd (s : string) : string :=
  match s with
  | EmptyString => EmptyString
  | String c s' =>
      match trimEnd s' with
      | EmptyString => if isSpace c then EmptyString else String c EmptyString
      | String d t => String c (String d t)
      end
  end.

(** [s.trim()]. *)
Definition trim (s : string) : string := trimEnd (trimStart s).

(** [v?.trim()]. *)
Definition trimOpt (v : option string) : option string := trim <$> v.

(** [v.toLowerCase()] where [v] may be undefined: reading a property of
    [undefined] throws a [TypeError]. *)
Definition toLowerCaseOf (v : option string) : result string :=
  match v with
  | Some s => Ok (toLowerCase s)
  | None => Throw (mkError "TypeError"
                     "Cannot read properties of undefined (reading 'toLowerCase')")
  end.

(** [v.includes(q)] where [v] may be undefined. *)
Definition includesOf (v : option string) (q : string) : result bool :=
  match v with
  | Some s => Ok (includes s q)
  | None => Throw (mkError "TypeError"
                     "Cannot read properties of undefined (reading 'includes')")
  end.

(** Sequencing of code that has no effect but may throw. *)
Definition andThen {A B} (r : result A) (k : A -> result B) : result B :=
  match r with
  | Ok a => k a
  | Throw msg => Throw msg
  end.

(** [l.filter(f)] for a callback that may throw: the elements are visited
    in order and the first throw ends the call. *)
Fixpoint filterThrowing {A} (f : A -> result bool) (l : list A) : result (list A) :=
  match l with
  | [] => Ok []
  | x :: l' =>
      andThen (f x) (fun keep =>
      andThen (filterThrowing f l') (fun rest =>
      Ok (if keep then x :: rest else rest)))
  end.

End JsText.

Import JsText.

(** ** The stats cards: [DashboardStats]

    The two percentages of the cards ([toFixed] of a quotient of doubles)
    are not modelled; the lists and the counts are. *)

Module DashboardStats.

Inductive StatCategory := total | new | working | booked | hot.

Definition StatCategory_eqb (a b : StatCategory) : bool :=
  match a, b with
  | total, total | new, new | working, working | booked, booked | hot, hot => true
  | _, _ => false
  end.

(** [(lead.status || "").toLowerCase()]. *)
Definition statusOf (lead : object) : string :=
  toLowerCase (or_else (obj_get lead "status") "").

(** [lead.travellerName?.trim() || lead.phone?.trim() || lead.tripId?.trim()],
    as the condition it is used for. *)
Definition hasData (lead : object) : bool :=
  truthy_opt (trimOpt (obj_get lead "travellerName")) ||
  truthy_opt (trimOpt (obj_get lead "phone")) ||
  truthy_opt (trimOpt (obj_get lead "tripId")).

Definition isNew (lead : object) : bool :=
  let status := statusOf lead in
  hasData lead && (String.eqb status "" || includes status "unfollowed").

Definition isWorking (lead : object) : bool :=
  let status := statusOf lead in
  includes status "follow-up" || includes status "working" ||
  includes status "whatsapp" || includes status "proposal" ||
  includes status "negotiations".

Definition isBooked (lead : object) : bool :=
  includes (statusOf lead) "booked with us".

Definition isHot (lead : object) : bool :=
  includes (statusOf lead) "hot".

Definition newLeads (leads : list object) : list object := List.filter isNew leads.

Definition workingLeads (leads : list object) : list object := List.filter isWorking leads.

Definition bookedLeads (leads : list object) : list object := List.filter isBooked leads.

Definition hotLeads (leads : list object) : list object := List.filter isHot leads.

Definition totalLeads (leads : list object) : nat := length leads.

Definition activeEngagement (leads : list object) : nat :=
  (length (workingLeads leads) + length (hotLeads leads))%nat.

(** One card of the top row, as far as the logic uses it. *)
Record stat := Stat {
  title : string;
  value : nat;
  color : string;
  category : StatCategory;
  statLeads : list object
}.

Definition topStats (leads : list object) : list stat :=
  [ Stat "Total Leads" (totalLeads leads) "text-primary" total leads;
    Stat "New/Unfollowed" (length (newLeads leads)) "text-blue-600" new (newLeads leads);
    Stat "Working On" (length (workingLeads leads)) "text-warning" working
      (workingLeads leads);
    Stat "Hot Leads" (length (hotLeads leads)) "text-orange-600" hot (hotLeads leads);
    Stat "Booked" (length (bookedLeads leads)) "text-success" booked (bookedLeads leads) ].

(** [topStats.find(s => s.category === selectedCategory)]; no category is
    selected at [None]. *)
Definition selectedStat (leads : list object) (selectedCategory : option StatCategory)
    : option stat :=
  match selectedCategory with
  | Some c => List.find (fun s => StatCategory_eqb (category s) c) (topStats leads)
  | None => None
  end.

(** The two dialogs of the returned tree: the detail dialog (title, leads,
    colour) and the hot leads dialog (leads), each rendered or not. *)
Record dialogs := Dialogs {
  detailDialog : option (string * list object * string);
  hotDialog : option (list object)
}.

Definition renderDialogs (leads : list object) (selectedCategory : option StatCategory)
    : dialogs :=
  {| detailDialog :=
       match selectedStat leads selectedCategory, selectedCategory with
       | Some s, Some hot => None
       | Some s, _ => Some (title s, statLeads s, color s)
       | None, _ => None
       end;
     hotDialog :=
       match selectedCategory with
       | Some hot => Some (hotLeads leads)
       | _ => None
       end |}.

End DashboardStats.

(** ** The consultant's page: [ConsultantDashboard]

    The filters, the tabs and the grid.  The page's own [fetchLeads] is left
    out. *)

Module ConsultantDashboard.

(** The filter state of the page. *)
Record filters := Filters {
  searchQuery : string;
  statusFilter : string;
  priorityFilter : string;
  dateFilter : string
}.

(** [!searchQuery || tripId... || travellerName... || phone...]; the fields
    are read left to right until one matches. *)
Definition matchesSearch (searchQuery : string) (lead : object) : result bool :=
  if negb (truthy searchQuery) then Ok true
  else
    andThen (toLowerCaseOf (obj_get lead "tripId")) (fun tripId =>
    if includes tripId (toLowerCase searchQuery) then Ok true
    else
      andThen (toLowerCaseOf (obj_get lead "travellerName")) (fun travellerName =>
      if includes travellerName (toLowerCase searchQuery) then Ok true
      else includesOf (obj_get lead "phone") searchQuery)).

(** [a === b] for a possibly undefined [a] and a string [b]. *)
Definition strictEq (a : option string) (b : string) : bool :=
  match a with
  | Some s => String.eqb s b
  | None => false
  end.

Definition matchesStatus (statusFilter : string) (lead : object) : bool :=
  String.eqb statusFilter "All Statuses" || strictEq (obj_get lead "status") statusFilter.

Definition matchesPriority (priorityFilter : string) (lead : object) : bool :=
  String.eqb priorityFilter "All Priorities" ||
  strictEq (toLowerCase <$> obj_get lead "priority") (toLowerCase priorityFilter).

Definition matchesDate (dateFilter : string) (lead : object) : bool :=
  negb (truthy dateFilter) || strictEq (obj_get lead "date") dateFilter.

(** The callback of [filteredLeads]: the four conditions are computed, then
    combined. *)
Definition keepLead (f : filters) (lead : object) : result bool :=
  andThen (matchesSearch (searchQuery f) lead) (fun matchesSearch =>
  Ok (matchesSearch && matchesStatus (statusFilter f) lead &&
      matchesPriority (priorityFilter f) lead && matchesDate (dateFilter f) lead)).

Definition filteredLeads (f : filters) (leads : list object) : result (list object) :=
  filterThrowing (keepLead f) leads.

(** [lead.status.toLowerCase().includes(a) || ...] over the words [ws]: the
    status is read again for each word until one is found. *)
Fixpoint statusHasAny (ws : list string) (lead : object) : result bool :=
  match ws with
  | [] => Ok false
  | word :: ws' =>
      andThen (toLowerCaseOf (obj_get lead "status")) (fun status =>
      if includes status word then Ok true else statusHasAny ws' lead)
  end.

Definition isNew : object -> result bool := statusHasAny ["unfollowed"; "follow-up"].

Definition isWorking : object -> result bool :=
  statusHasAny ["working"; "whatsapp"; "proposal"; "negotiations"; "hot"].

Definition isBooked : object -> result bool := statusHasAny ["booked with us"].

Definition newLeads (filteredLeads : list object) : result (list object) :=
  filterThrowing isNew filteredLeads.

Definition workingLeads (filteredLeads : list object) : result (list object) :=
  filterThrowing isWorking filteredLeads.

Definition bookedLeads (filteredLeads : list object) : result (list object) :=
  filterThrowing isBooked filteredLeads.

(** What [renderLeadGrid] returns: the spinner, the empty notice, or one
    card per lead with its React key. *)
Inductive grid :=
| Spinner
| NoLeads
| Cards (cards : list (string * object)).

(** [`${lead.tripId}-${index}`]. *)
Definition cardKey (index : nat) (lead : object) : string :=
  template_opt (obj_get lead "tripId") +:+ "-" +:+ numberToString (Z.of_nat index).

Definition renderLeadGrid (loading : bool) (leadsToRender : list object) : grid :=
  if loading then Spinner
  else if (length leadsToRender =? 0)%nat then NoLeads
  else Cards (imap (fun index lead => (cardKey index lead, lead)) leadsToRender).

End ConsultantDashboard.

(** ** Concrete configurations and provider behaviours *)

Module Examples.

Import GoogleSheets.

(** Percent-encoding of every character outside the unreserved set of
    [encodeURIComponent] (letters, digits and - _ . ! ~ * ' ( )). *)
Definition hexDigit (n : nat) : ascii :=
  ascii_of_nat (if (n <? 10)%nat then 48 + n else 55 + n).

Definition unreserved (c : ascii) : bool :=
  let n := charCode c in
  ((97 <=? n) && (n <=? 122)) || ((65 <=? n) && (n <=? 90)) ||
  ((48 <=? n) && (n <=? 57)) ||
  (n =? 45) || (n =? 95) || (n =? 46) || (n =? 33) || (n =? 126) ||
  (n =? 42) || (n =? 39) || (n =? 40) || (n =? 41).

Fixpoint percentEncode (s : string) : string :=
  match s with
  | EmptyString => EmptyString
  | String c s' =>
      if unreserved c then String c (percentEncode s')
      else String "%" (String (hexDigit (nat_of_ascii c / 16))
                         (String (hexDigit (nat_of_ascii c mod 16)) (percentEncode s')))
  end.

Definition okJson (b : json_body) : result response :=
  Ok (Response true "OK" (json_text b) (Ok b)).

Definition tokenBody : json_body :=
  JsonBody None (Some "tok") None "{access_token:tok}".

(** A provider that grants a token, answers the key-column read with
    [column], and answers the append and the batch write with [write]. *)
Definition provider (column : option (list (list string))) (write : result response)
    (req : request) : result response :=
  match req_body_of req with
  | FormBody _ => okJson tokenBody
  | NoBody => okJson (JsonBody column None None "{values}")
  | AppendBody _ => write
  | BatchBody _ => write
  end.

Definition worldOf (column : option (list (list string))) (write : result response) : world :=
  {| net := provider column write;
     now := 1700000000000;
     today := "2023-11-14";
     encodeURIComponent := percentEncode;
     signJwt := fun _ _ => Ok "jwt" |}.

Definition written : result response :=
  okJson (JsonBody None None None "{totalUpdatedCells}").

Definition rejected (message : string) : result response :=
  Ok (Response false "Bad Request" message (Ok (JsonBody None None (Some message) message))).

(** The client of the scenario: mapping {tripId: "A", status: "B"} on the
    worksheet "Sheet". *)
Definition client : t :=
  new (LocalSecrets.Make "https://docs.google.com/spreadsheets/d/abc-123_X/edit#gid=0"
         ["Sheet"] [("tripId", "A"); ("status", "B")] "{service account}" "key").

(** The key column of a sheet with "T1" in physical row 3. *)
Definition sheetT1 : option (list (list string)) := Some [["T0"; "T1"; "T2"]].

(** A filled form of the add-lead dialog, without trip identifier. *)
Definition form : AddLeadDialog.formData :=
  AddLeadDialog.FormData "" "Asha" "5550100" "" "2024-01-05" "Kerala" "4" "2"
    "3 Star" "CP" "Unfollowed" "".

End Examples.

(** ** Notions of the specification, stated next to the code *)

Module Spec.

Import GoogleSheets.

(** A character 'A'..'Z', and a column address: uppercase letters only. *)
Definition isUpper (c : ascii) : bool :=
  (65 <=? charCode c) && (charCode c <=? 90).

Fixpoint isColumn (s : string) : bool :=
  match s with
  | EmptyString => true
  | String c s' => isUpper c && isColumn s'
  end.

(** The digit of a letter: 'A' is 1, ..., 'Z' is 26. *)
Definition letterDigit (c : ascii) : Z := charCode c - 64.

(** The column string read as a base-26 numeral, most significant letter
    first: the letter at distance [k] from the end weighs [26 ^ k]. *)
Fixpoint letterValue (s : string) : Z :=
  match s with
  | EmptyString => 0
  | String c s' => letterDigit c * 26 ^ Z.of_nat (String.length s') + letterValue s'
  end.

(** Alphabetical order of two strings of the same length. *)
Fixpoint alphaLtb (a b : string) : bool :=
  match a, b with
  | String x a', String y b' =>
      (charCode x <? charCode y) || ((charCode x =? charCode y) && alphaLtb a' b')
  | _, _ => false
  end.

(** The order of column addresses in a sheet: shorter addresses first,
    addresses of one length alphabetically (A, ..., Z, AA, AB, ...). *)
Definition columnLtb (a b : string) : bool :=
  (String.length a <? String.length b)%nat ||
  ((String.length a =? String.length b)%nat && alphaLtb a b).

(** A string of decimal digits. *)
Definition isDigit (c : ascii) : bool :=
  (48 <=? charCode c) && (charCode c <=? 57).

Fixpoint allDigits (s : string) : bool :=
  match s with
  | EmptyString => true
  | String c s' => isDigit c && allDigits s'
  end.

(** Every character of [s] satisfies [f]. *)
Fixpoint allChars (f : ascii -> bool) (s : string) : bool :=
  match s with
  | EmptyString => true
  | String c s' => f c && allChars f s'
  end.

(** [url] contains a segment /spreadsheets/d/{id} with a non-empty
    identifier of letters, digits, '-' and '_'. *)
Definition hasSheetSegment (url : string) : Prop :=
  exists pre id post,
    url = pre +:+ "/spreadsheets/d/" +:+ id +:+ post /\
    id <> "" /\ allChars isIdChar id = true.

(** The append direction followed by the read direction on the row in
    memory. *)
Definition roundTrip (now : Z) (cm : mapping) (lead : object) : result object :=
  match recordToRow now cm lead with
  | Ok row => Ok (rowToRecord cm row)
  | Throw msg => Throw msg
  end.

(** The cell that [appendLead] writes for the trip identifier. *)
Definition tripIdCell (now : Z) (lead : object) : string :=
  or_else (obj_get lead "tripId") ("T" +:+ numberToString now).

(** What one turn of the loop of [appendLead] writes for the field [key],
    [None] when it leaves the row alone. *)
Definition writtenValue (now : Z) (lead : object) (key : string) : option string :=
  if String.eqb key "tripId" then Some (tripIdCell now lead) else obj_get lead key.

(** The column index of an entry of the mapping. *)
Definition entryIndex (e : string * string) : Z := columnToIndex e.2.

(** A sheets service whose [appendLead] performs network calls only. *)
Definition onlyCalls (service : object -> M unit) : Prop :=
  forall lead e, In e (trace (service lead)) -> exists req, e = Net req.

End Spec.

Import GoogleSheets Spec.

(** * Properties *)

(** The monad, unfolded: [run] evaluates a computation as far as the
    provider's answers are known. *)
Ltac run :=
  unfold bind, try_catch, finally, fetch, lift, emit, throw, ret, trace, outcome;
  cbn [fst snd app].

(** ** The column-address codec *)

Section Codec.

Lemma roundNumber_exact (x : Z) : Z.abs x <= 2 ^ 53 -> roundNumber x = x.
Proof.
  intros H. unfold roundNumber. cbn zeta.
  apply Z.leb_le in H. now rewrite H.
Qed.

Lemma isUpper_digit (c : ascii) :
  isUpper c = true -> 1 <= letterDigit c <= 26.
Proof. unfold isUpper, letterDigit. lia. Qed.

(** Bounds of a numeral of [n] letters: between "A...A" and "Z...Z". *)
Lemma letterValue_bounds (s : string) :
  isColumn s = true ->
  26 ^ Z.of_nat (String.length s) - 1 <= 25 * letterValue s
  /\ 25 * letterValue s <= 26 * (26 ^ Z.of_nat (String.length s) - 1).
Proof.
  induction s as [|c s IH]; simpl isColumn; simpl letterValue.
  - simpl. lia.
  - intros [Hc Hs]%andb_prop. apply isUpper_digit in Hc. specialize (IH Hs).
    replace (Z.of_nat (String.length (String c s)))
      with (Z.succ (Z.of_nat (String.length s))) by (simpl String.length; lia).
    rewrite Z.pow_succ_r by lia.
    assert (0 < 26 ^ Z.of_nat (String.length s)) by (apply Z.pow_pos_nonneg; lia).
    nia.
Qed.

(** As long as the value that the loop is heading for stays within 2^53,
    no step of it rounds: the loop is the positional numeral. *)
Lemma columnLoop_exact (s : string) (acc : Z) :
  isColumn s = true -> 0 <= acc ->
  (acc + 2) * 26 ^ Z.of_nat (String.length s) <= 2 ^ 53 ->
  columnLoop acc s = acc * 26 ^ Z.of_nat (String.length s) + letterValue s.
Proof.
  revert acc; induction s as [|c s IH]; intros acc Hs Hacc Hbound.
  - cbn. lia.
  - cbn [isColumn] in Hs. apply andb_prop in Hs as [Hc Hs].
    apply isUpper_digit in Hc. unfold letterDigit in Hc.
    replace (Z.of_nat (String.length (String c s)))
      with (Z.succ (Z.of_nat (String.length s))) in * by (cbn [String.length]; lia).
    rewrite Z.pow_succ_r in * by lia.
    assert (1 <= 26 ^ Z.of_nat (String.length s)) as Hpow
      by (pose proof (Z.pow_pos_nonneg 26 (Z.of_nat (String.length s))); lia).
    cbn [columnLoop letterValue]. change (charCode "A") with 65.
    rewrite (roundNumber_exact (acc * 26)) by nia.
    rewrite roundNumber_exact by nia.
    rewrite IH by (trivial; nia).
    unfold letterDigit. ring.
Qed.

Lemma columnToIndex_exact (s : string) :
  isColumn s = true -> (String.length s <= 11)%nat ->
  columnToIndex s = letterValue s - 1.
Proof.
  intros Hs Hlen. unfold columnToIndex.
  assert (26 ^ Z.of_nat (String.length s) <= 26 ^ 11) as Hpow
    by (apply Z.pow_le_mono_r; lia).
  assert (0 < 26 ^ Z.of_nat (String.length s)) by (apply Z.pow_pos_nonneg; lia).
  change (26 ^ 11) with 3670344486987776 in Hpow.
  rewrite columnLoop_exact by (trivial; change (2 ^ 53) with 9007199254740992; lia).
  pose proof (letterValue_bounds s Hs) as [Hlo Hhi].
  rewrite roundNumber_exact; [lia|].
  change (2 ^ 53) with 9007199254740992. lia.
Qed.

Lemma letterValue_alpha (a b : string) :
  String.length a = String.length b ->
  isColumn a = true -> isColumn b = true ->
  alphaLtb a b = true -> letterValue a < letterValue b.
Proof.
  revert b; induction a as [|x a IH]; intros [|y b]; simpl; try discriminate.
  intros Hlen [Hx Ha]%andb_prop [Hy Hb]%andb_prop Hlt.
  injection Hlen as Hlen.
  pose proof (letterValue_bounds a Ha) as Ba.
  pose proof (letterValue_bounds b Hb) as Bb.
  specialize (IH b Hlen Ha Hb).
  rewrite Hlen in Ba |- *.
  assert (0 < 26 ^ Z.of_nat (String.length b)) by (apply Z.pow_pos_nonneg; lia).
  apply orb_prop in Hlt as [Hlt | [Heq Hrest]%andb_prop].
  - unfold letterDigit. nia.
  - specialize (IH Hrest). unfold letterDigit.
    apply Z.eqb_eq in Heq. rewrite Heq. lia.
Qed.

Lemma letterValue_shorter (a b : string) :
  (String.length a < String.length b)%nat ->
  isColumn a = true -> isColumn b = true ->
  letterValue a < letterValue b.
Proof.
  intros Hlen Ha Hb.
  pose proof (letterValue_bounds a Ha) as Ba.
  pose proof (letterValue_bounds b Hb) as Bb.
  assert (26 * 26 ^ Z.of_nat (String.length a) <= 26 ^ Z.of_nat (String.length b)).
  { rewrite <- Z.pow_succ_r by lia. apply Z.pow_le_mono_r; lia. }
  lia.
Qed.

Lemma columnLtb_length (a b : string) :
  columnLtb a b = true -> (String.length a <= String.length b)%nat.
Proof.
  unfold columnLtb. intros [H | [H _]%andb_prop]%orb_prop.
  - apply Nat.ltb_lt in H. lia.
  - apply Nat.eqb_eq in H. lia.
Qed.

Lemma columnToIndex_lt (a b : string) :
  isColumn a = true -> isColumn b = true ->
  (String.length b <= 11)%nat ->
  columnLtb a b = true -> columnToIndex a < columnToIndex b.
Proof.
  intros Ha Hb Hlen Hlt. pose proof (columnLtb_length a b Hlt) as Hab.
  rewrite !columnToIndex_exact by (trivial; lia).
  apply orb_prop in Hlt as [Hlt | [Heq Hlt]%andb_prop].
  - apply Nat.ltb_lt in Hlt. pose proof (letterValue_shorter a b Hlt Ha Hb). lia.
  - apply Nat.eqb_eq in Heq. pose proof (letterValue_alpha a b Heq Ha Hb Hlt). lia.
Qed.

(** On column addresses of up to eleven letters every intermediate value
    of the loop is a non-negative integer below 2^53, where the arithmetic
    of doubles is exact. *)
Lemma columnToIndex_bound (s : string) :
  isColumn s = true -> (String.length s <= 11)%nat ->
  0 <= columnToIndex s + 1 < 2 ^ 53.
Proof.
  intros Hs Hlen. rewrite (columnToIndex_exact s Hs Hlen).
  pose proof (letterValue_bounds s Hs) as [Hlo Hhi].
  assert (0 < 26 ^ Z.of_nat (String.length s)) by (apply Z.pow_pos_nonneg; lia).
  assert (26 ^ Z.of_nat (String.length s) <= 26 ^ 11) by (apply Z.pow_le_mono_r; lia).
  change (26 ^ 11) with 3670344486987776 in *.
  change (2 ^ 53) with 9007199254740992. lia.
Qed.

(** C7 (amended). On uppercase column strings of up to eleven letters
    [columnToIndex] is the base-26 numeral whose digits 'A'..'Z' are worth
    1..26, most significant letter first, minus 1; so "A" is 0, "Z" is 25,
    "AA" is 26 and "AZ" is 51, and over these addresses the index grows
    strictly along the order of column addresses (shorter first, then
    alphabetical): A < B < ... < Z < AA. *)
Theorem columnToIndex_base26 :
  (forall col, isColumn col = true -> (String.length col <= 11)%nat ->
     columnToIndex col = letterValue col - 1)
  /\ (forall c, isUpper c = true -> 1 <= letterDigit c <= 26)
  /\ columnToIndex "A" = 0 /\ columnToIndex "Z" = 25
  /\ columnToIndex "AA" = 26 /\ columnToIndex "AZ" = 51
  /\ (forall a b, isColumn a = true -> isColumn b = true ->
        (String.length b <= 11)%nat ->
        columnLtb a b = true -> columnToIndex a < columnToIndex b).
Proof.
  split; [|split; [|repeat split]].
  - apply columnToIndex_exact.
  - apply isUpper_digit.
  - apply columnToIndex_lt.
Qed.

(** The chain of C7 at its last link: "Z" comes before "AA". *)
Lemma columnToIndex_base26_witness :
  columnLtb "Z" "AA" = true /\ columnToIndex "Z" < columnToIndex "AA".
Proof.
  split; [reflexivity|].
  apply (proj2 (proj2 (proj2 (proj2 (proj2 (proj2 columnToIndex_base26))))));
    try reflexivity. cbn. lia.
Defined.

(** From twelve letters on the loop leaves the integers that doubles hold
    exactly: "ZZZZZZZZZZZY" comes before "ZZZZZZZZZZZZ" and both resolve to
    99246114928149472, which is not the numeral of either minus 1, and
    "YZZZZZZZZZZZ" comes before "ZAAAAAAAAAAA" and resolves to the larger
    index. *)
Lemma columnToIndex_rounds_counterexample :
  isColumn "ZZZZZZZZZZZY" = true /\ isColumn "ZZZZZZZZZZZZ" = true
  /\ columnLtb "ZZZZZZZZZZZY" "ZZZZZZZZZZZZ" = true
  /\ ~ (columnToIndex "ZZZZZZZZZZZY" < columnToIndex "ZZZZZZZZZZZZ")
  /\ columnToIndex "ZZZZZZZZZZZZ" <> letterValue "ZZZZZZZZZZZZ" - 1
  /\ isColumn "YZZZZZZZZZZZ" = true /\ isColumn "ZAAAAAAAAAAA" = true
  /\ columnLtb "YZZZZZZZZZZZ" "ZAAAAAAAAAAA" = true
  /\ columnToIndex "ZAAAAAAAAAAA" < columnToIndex "YZZZZZZZZZZZ".
Proof.
  assert (columnToIndex "ZZZZZZZZZZZY" = 99246114928149472) as Ey by (vm_compute; reflexivity).
  assert (columnToIndex "ZZZZZZZZZZZZ" = 99246114928149472) as Ez by (vm_compute; reflexivity).
  assert (columnToIndex "YZZZZZZZZZZZ" = 95575770441161696) as Eyz by (vm_compute; reflexivity).
  assert (columnToIndex "ZAAAAAAAAAAA" = 95575770441161680) as Eza by (vm_compute; reflexivity).
  assert (letterValue "ZZZZZZZZZZZZ" = 99246114928149462) as Ev by (vm_compute; reflexivity).
  rewrite Ey, Ez, Eyz, Eza, Ev.
  repeat split; try reflexivity; lia.
Qed.

End Codec.

(** ** Strings: prefixes, substrings and the sheet identifier *)

Section Strings.

Lemma append_nil (r : string) : "" +:+ r = r.
Proof. reflexivity. Qed.

Lemma append_cons (a : ascii) (s r : string) :
  String a s +:+ r = String a (s +:+ r).
Proof. reflexivity. Qed.

Lemma stripPrefix_Some (p s r : string) :
  stripPrefix p s = Some r -> s = p +:+ r.
Proof.
  revert s; induction p as [|b p IH]; intros s; cbn [stripPrefix].
  - now intros [= ->].
  - destruct s as [|a s]; [discriminate|].
    destruct (Ascii.eqb a b) eqn:E; [|discriminate].
    apply Ascii.eqb_eq in E as ->. intros H.
    now rewrite (IH _ H), append_cons.
Qed.

Lemma stripPrefix_append (p r : string) : stripPrefix p (p +:+ r) = Some r.
Proof.
  induction p as [|b p IH]; [reflexivity|].
  rewrite append_cons. cbn [stripPrefix]. now rewrite Ascii.eqb_refl.
Qed.

Lemma takeWhile_split (f : ascii -> bool) (s : string) :
  allChars f (takeWhile f s) = true /\ exists rest, s = takeWhile f s +:+ rest.
Proof.
  induction s as [|a s [IHall [rest IHrest]]]; cbn [takeWhile].
  - split; [reflexivity | now exists ""].
  - destruct (f a) eqn:E; cbn [allChars].
    + rewrite E, IHall. split; [reflexivity|]. exists rest.
      now rewrite append_cons, <- IHrest.
    + split; [reflexivity|]. now exists (String a s).
Qed.

Lemma truthy_nonempty (s : string) : truthy s = true <-> s <> "".
Proof. destruct s; simpl; split; congruence. Qed.

Lemma matchHere_Some (url id : string) :
  matchHere url = Some id ->
  id <> "" /\ allChars isIdChar id = true /\
  exists post, url = "/spreadsheets/d/" +:+ id +:+ post.
Proof.
  unfold matchHere.
  destruct (stripPrefix "/spreadsheets/d/" url) as [rest|] eqn:E; [|discriminate].
  destruct (truthy (takeWhile isIdChar rest)) eqn:T; [|discriminate].
  intros [= <-]. apply stripPrefix_Some in E.
  destruct (takeWhile_split isIdChar rest) as [Hall [post Hpost]].
  split; [now apply truthy_nonempty|]. split; [exact Hall|].
  exists post. now rewrite <- Hpost.
Qed.

Lemma matchSheetId_here (url id : string) :
  matchHere url = Some id -> matchSheetId url = Some id.
Proof. intros E. destruct url; cbn [matchSheetId]; now rewrite E. Qed.

(** What [match] returns is a segment of the URL. *)
Lemma matchSheetId_sound (url id : string) :
  matchSheetId url = Some id ->
  id <> "" /\ allChars isIdChar id = true /\
  exists pre post, url = pre +:+ "/spreadsheets/d/" +:+ id +:+ post.
Proof.
  induction url as [|c url IH].
  - discriminate.
  - cbn [matchSheetId]. destruct (matchHere (String c url)) as [id'|] eqn:E.
    + intros [= ->]. apply matchHere_Some in E as (Hne & Hall & post & Hurl).
      repeat split; trivial. now exists "", post.
    + intros H. destruct (IH H) as (Hne & Hall & pre & post & Hurl).
      repeat split; trivial. exists (String c pre), post.
      now rewrite append_cons, Hurl.
Qed.

(** A URL with a segment has a match: the regular expression misses none. *)
Lemma matchSheetId_complete (url : string) :
  hasSheetSegment url -> exists id, matchSheetId url = Some id.
Proof.
  intros (pre & id & post & -> & Hne & Hall).
  induction pre as [|c pre IH].
  - destruct id as [|x id]; [congruence|]. simpl in Hall.
    apply andb_prop in Hall as [Hx _].
    rewrite append_nil, (append_cons x id post).
    eexists. apply matchSheetId_here.
    unfold matchHere. rewrite stripPrefix_append. cbn [takeWhile]. now rewrite Hx.
  - rewrite append_cons. cbn [matchSheetId].
    destruct (matchHere _); [eauto | exact IH].
Qed.

End Strings.

(** ** Configuration *)

Section Configuration.

(** C10. A spreadsheet URL without a segment /spreadsheets/d/{id} makes
    [extractSheetId] return the empty string; nothing fails, and the
    constructor builds a client whose sheet identifier is empty. *)
Theorem extractSheetId_without_segment (url : string) :
  ~ hasSheetSegment url ->
  extractSheetId url = ""
  /\ forall localSecrets,
       LocalSecrets.spreadsheetUrl localSecrets = url ->
       sheetId (new localSecrets) = "".
Proof.
  intros Hno.
  assert (extractSheetId url = "") as E.
  { unfold extractSheetId. destruct (matchSheetId url) as [id|] eqn:M; [|reflexivity].
    exfalso. apply Hno. apply matchSheetId_sound in M as (Hne & Hall & pre & post & ->).
    now exists pre, id, post. }
  split; [exact E|]. intros secrets <-. exact E.
Qed.

Lemma extractSheetId_without_segment_witness :
  extractSheetId "https://example.com/spreadsheets/d/?x=1" = "".
Proof.
  apply (extractSheetId_without_segment "https://example.com/spreadsheets/d/?x=1").
  intros H. apply matchSheetId_complete in H as [id H].
  vm_compute in H. discriminate H.
Defined.

End Configuration.

(** ** The lookup engine *)

Section Lookup.

Lemma findIndex_range {A : Type} (f : A -> bool) (l : list A) :
  -1 <= findIndex f l < Z.of_nat (length l).
Proof.
  induction l as [|x l IH]; cbn [findIndex length]; [lia|].
  destruct (f x); [lia|]. destruct (findIndex f l =? -1) eqn:E; lia.
Qed.

(** [findIndex] returns the first position whose element satisfies [f]. *)
Lemma findIndex_first {A : Type} (f : A -> bool) (l : list A) (i : nat) :
  findIndex f l = Z.of_nat i <->
  (exists x, l !! i = Some x /\ f x = true)
  /\ forall j y, (j < i)%nat -> l !! j = Some y -> f y = false.
Proof.
  revert i; induction l as [|x l IH]; intros i; cbn [findIndex].
  - split; [lia|]. intros [(y & Hy & _) _]. discriminate Hy.
  - destruct (f x) eqn:Fx.
    + split.
      * intros H. assert (i = 0%nat) as -> by lia. split; [eauto|]. intros; lia.
      * intros [_ Hfirst]. destruct i as [|i]; [reflexivity|].
        specialize (Hfirst 0%nat x ltac:(lia) eq_refl). congruence.
    + pose proof (findIndex_range f l) as R.
      destruct (findIndex f l =? -1) eqn:E.
      * split; [lia|]. intros [(y & Hy & Fy) Hfirst].
        destruct i as [|i]; [cbn in Hy; congruence|].
        assert (findIndex f l = Z.of_nat i) as Hi; [|lia].
        apply IH. split; [eauto|].
        intros j z Hj Hz. apply (Hfirst (S j) z); [lia | exact Hz].
      * destruct i as [|i].
        -- split; [lia|]. intros [(y & Hy & Fy) _]. cbn in Hy. congruence.
        -- replace (findIndex f l + 1 = Z.of_nat (S i))
             with (findIndex f l + 1 = Z.of_nat i + 1) by (f_equal; lia).
           rewrite Z.add_cancel_r, IH. split.
           ++ intros [Hx Hfirst]. split; [exact Hx|].
              intros [|j] z Hj Hz; [cbn in Hz; congruence|].
              apply (Hfirst j z); [lia | exact Hz].
           ++ intros [Hx Hfirst]. split; [exact Hx|].
              intros j z Hj Hz. apply (Hfirst (S j) z); [lia | exact Hz].
Qed.

Lemma findIndex_none {A : Type} (f : A -> bool) (l : list A) :
  findIndex f l = -1 <-> forall x, In x l -> f x = false.
Proof.
  induction l as [|x l IH]; cbn [findIndex In].
  - split; [intros _ x [] | reflexivity].
  - destruct (f x) eqn:Fx.
    + split; [lia|]. intros H. specialize (H x (or_introl eq_refl)). congruence.
    + pose proof (findIndex_range f l) as R.
      destruct (findIndex f l =? -1) eqn:E.
      * apply Z.eqb_eq in E. split; [|reflexivity].
        intros _ y [<- | Hy]; [exact Fx | now apply IH].
      * apply Z.eqb_neq in E. split; [lia|].
        intros H. exfalso. apply E, IH. intros y Hy. apply H. now right.
Qed.

(** The row number is the position of the first equal cell plus 2. *)
Lemma findRowByKey_first (tripId : string) (colVals : list string) (r : Z) :
  findRowByKey tripId colVals = Some r <->
  exists i : nat,
    r = Z.of_nat i + 2 /\ colVals !! i = Some tripId
    /\ forall j, (j < i)%nat -> colVals !! j <> Some tripId.
Proof.
  unfold findRowByKey.
  pose proof (findIndex_range (fun v => String.eqb v tripId) colVals) as R.
  destruct (findIndex _ colVals =? -1) eqn:E.
  - apply Z.eqb_eq in E. split; [discriminate|].
    intros (i & _ & Hi & _).
    apply (proj1 (findIndex_none _ _)) with (x := tripId) in E.
    + now rewrite String.eqb_refl in E.
    + apply list_elem_of_In. now apply list_elem_of_lookup_2 with i.
  - apply Z.eqb_neq in E.
    set (k := findIndex _ colVals) in *.
    assert (k = Z.of_nat (Z.to_nat k)) as Hk by lia.
    split.
    + intros [= <-]. exists (Z.to_nat k). split; [lia|].
      apply findIndex_first in Hk as [(x & Hx & Fx) Hfirst].
      apply String.eqb_eq in Fx as ->. split; [exact Hx|].
      intros j Hj Hjx. specialize (Hfirst j tripId Hj Hjx).
      now rewrite String.eqb_refl in Hfirst.
    + intros (i & -> & Hi & Hfirst). f_equal.
      assert (k = Z.of_nat i) as ->; [|reflexivity].
      apply findIndex_first. split.
      * exists tripId. split; [exact Hi | apply String.eqb_refl].
      * intros j y Hj Hy. apply String.eqb_neq. intros ->. now apply (Hfirst j).
Qed.

Lemma findRowByKey_none (tripId : string) (colVals : list string) :
  findRowByKey tripId colVals = None <-> ~ In tripId colVals.
Proof.
  unfold findRowByKey.
  destruct (findIndex _ colVals =? -1) eqn:E.
  - apply Z.eqb_eq in E. pose proof (proj1 (findIndex_none _ _) E) as N.
    split; [|reflexivity].
    intros _ Hin. specialize (N _ Hin). cbn in N. now rewrite String.eqb_refl in N.
  - apply Z.eqb_neq in E. split; [discriminate|]. intros Hnot. exfalso.
    apply E, findIndex_none. intros x Hx. apply String.eqb_neq. now intros ->.
Qed.

End Lookup.

(** ** Partial update: [updateLead] *)

Section Update.

Lemma batchWrites_app (tr1 tr2 : list event) :
  batchWrites (tr1 ++ tr2) = batchWrites tr1 ++ batchWrites tr2.
Proof. apply omap_app. Qed.

Lemma getAccessToken_batchWrites (w : world) (this : t) :
  batchWrites (trace (getAccessToken w this)) = [].
Proof.
  unfold getAccessToken. run.
  repeat (case_match; simplify_eq; cbn [fst snd app]); reflexivity.
Qed.

Lemma getAccessToken_token_batchWrites (w : world) (this : t) tr0 token :
  getAccessToken w this = (tr0, Ok token) -> batchWrites tr0 = [].
Proof.
  intros H. pose proof (getAccessToken_batchWrites w this) as B.
  now rewrite H in B.
Qed.

(** No mapped field with a value: step 2 of [updateLead] builds nothing. *)
Lemma recordToCellWrites_nil (ws : string) (cm : mapping) (updates : object) (r : Z) :
  (forall key v, In (key, Some v) updates -> assoc key cm = None) ->
  recordToCellWrites ws cm updates r = [].
Proof.
  unfold recordToCellWrites. intros H.
  induction updates as [|[key [v|]] us IH]; [reflexivity | |];
    cbn [List.filter]; unfold keepUpdate at 1; cbn [fst snd].
  - rewrite (H key v (or_introl eq_refl)). cbn [truthy_opt].
    apply IH. intros k v' Hin. apply (H k v'). now right.
  - apply IH. intros k v' Hin. apply (H k v'). now right.
Qed.

(** [updateLead] once the token is granted and the key column is read:
    the key is missing. *)
Lemma updateLead_not_found (w : world) (this : t) (tripId : string) (updates : object)
    tr0 token resFind dataFind :
  getAccessToken w this = (tr0, Ok token) ->
  net w (findRequest w this token) = Ok resFind ->
  json resFind = Ok dataFind -> ok resFind = true ->
  findRowByKey tripId (firstColumn dataFind) = None ->
  updateLead w this tripId updates =
    (tr0 ++ [ Net (findRequest w this token);
              Alert ("⚠️ Trip ID " +:+ tripId +:+ " not found in Google Sheet.");
              Console ErrorLevel ["UpdateLead error:"; "Trip ID " +:+ tripId +:+ " not found."];
              Alert ("❌ Error updating lead: " +:+
                     errorText ("Trip ID " +:+ tripId +:+ " not found.")) ],
     Ok tt).
Proof.
  intros Htok Hnet Hjson Hok Hfind. unfold updateLead. rewrite Htok. run.
  rewrite Hnet, Hjson, Hok, Hfind. cbn [negb app]. now rewrite <- app_assoc.
Qed.

(** The key is found and step 2 builds no write. *)
Lemma updateLead_found_nothing (w : world) (this : t) (tripId : string) (updates : object)
    tr0 token resFind dataFind rowNumber :
  getAccessToken w this = (tr0, Ok token) ->
  net w (findRequest w this token) = Ok resFind ->
  json resFind = Ok dataFind -> ok resFind = true ->
  findRowByKey tripId (firstColumn dataFind) = Some rowNumber ->
  recordToCellWrites (worksheetName this) (columnMappings this) updates rowNumber = [] ->
  updateLead w this tripId updates =
    (tr0 ++ [ Net (findRequest w this token);
              Console WarnLevel ["No valid fields to update for lead:"; tripId] ],
     Ok tt).
Proof.
  intros Htok Hnet Hjson Hok Hfind Hdata. unfold updateLead. rewrite Htok. run.
  rewrite Hnet, Hjson, Hok, Hfind, Hdata. cbn [negb app length Nat.eqb].
  reflexivity.
Qed.

(** The key is found and there is something to write: one batch request
    follows the lookup, and nothing after it is a network call. *)
Lemma updateLead_found_batch (w : world) (this : t) (tripId : string) (updates : object)
    tr0 token resFind dataFind rowNumber :
  getAccessToken w this = (tr0, Ok token) ->
  net w (findRequest w this token) = Ok resFind ->
  json resFind = Ok dataFind -> ok resFind = true ->
  findRowByKey tripId (firstColumn dataFind) = Some rowNumber ->
  recordToCellWrites (worksheetName this) (columnMappings this) updates rowNumber <> [] ->
  exists report,
    updateLead w this tripId updates =
      (tr0 ++ Net (findRequest w this token)
           :: Net (batchRequest this token
                     (recordToCellWrites (worksheetName this) (columnMappings this)
                        updates rowNumber))
           :: report,
       Ok tt)
    /\ netCalls report = [].
Proof.
  intros Htok Hnet Hjson Hok Hfind Hdata. unfold updateLead. rewrite Htok. run.
  rewrite Hnet, Hjson, Hok, Hfind. cbn [negb app].
  destruct (recordToCellWrites _ _ updates rowNumber) as [|d data] eqn:D; [congruence|].
  cbn [length Nat.eqb].
  destruct (net w (batchRequest this token (d :: data))) as [res|msg]; cbn [app].
  - destruct (json res) as [result|msg]; cbn [app].
    + destruct (ok res); cbn [negb app]; rewrite <- ?app_assoc; cbn [app];
        eexists; (split; [reflexivity|reflexivity]).
    + rewrite <- ?app_assoc; cbn [app]; eexists; (split; [reflexivity|reflexivity]).
  - rewrite <- ?app_assoc; cbn [app]; eexists; (split; [reflexivity|reflexivity]).
Qed.

(** Whatever the provider answers, [updateLead] ends normally. *)
Lemma updateLead_returns (w : world) (this : t) (tripId : string) (updates : object) :
  outcome (updateLead w this tripId updates) = Ok tt.
Proof.
  unfold updateLead. run.
  destruct (getAccessToken w this) as [tr0 [token|msg]]; [|reflexivity].
  repeat (case_match; simplify_eq; cbn [fst snd app]); try reflexivity.
Qed.

(** A batch write is only ever sent for the writes that step 2 built. *)
Lemma updateLead_no_batch (w : world) (this : t) (tripId : string) (updates : object) :
  (forall rowNumber,
     recordToCellWrites (worksheetName this) (columnMappings this) updates rowNumber = []) ->
  batchWrites (trace (updateLead w this tripId updates)) = [].
Proof.
  intros Hdata. unfold updateLead.
  pose proof (getAccessToken_batchWrites w this) as B.
  destruct (getAccessToken w this) as [tr0 [token|msg]]; run; cbn [trace fst] in B.
  - destruct (net w (findRequest w this token)) as [resFind|msg]; cbn [app fst];
      [|rewrite !batchWrites_app, B; reflexivity].
    destruct (json resFind) as [dataFind|msg]; cbn [app fst];
      [|rewrite !batchWrites_app, B; reflexivity].
    destruct (ok resFind); cbn [negb app fst];
      [|rewrite !batchWrites_app, B; reflexivity].
    destruct (findRowByKey tripId (firstColumn dataFind)) as [rowNumber|]; cbn [app fst];
      [|rewrite !batchWrites_app, B; reflexivity].
    rewrite Hdata. cbn [length Nat.eqb app fst].
    rewrite !batchWrites_app, B; reflexivity.
  - rewrite !batchWrites_app, B; reflexivity.
Qed.

Lemma netCalls_batchWrites (tr : list event) :
  netCalls tr = [] -> batchWrites tr = [].
Proof.
  induction tr as [|e tr IH]; [reflexivity|].
  destruct e; cbn; try exact IH. discriminate.
Qed.

(** C1 (amended). With the mapping {tripId: "A", status: "B"} and the
    update {tripId: "T1", status: "Hot Leads"} on a sheet whose key column
    holds "T1" in physical row 3, [updateLead] sends one batch write of
    exactly two (range, value) pairs, in this order: cell A3 with "T1" and
    cell B3 with "Hot Leads".  The tripId entry of the update has a value
    and a mapping entry, so it is written like every other field. *)
Theorem updateLead_writes_key_and_status (w : world) (this : t)
    tr0 token resFind dataFind :
  columnMappings this = [("tripId", "A"); ("status", "B")] ->
  getAccessToken w this = (tr0, Ok token) ->
  net w (findRequest w this token) = Ok resFind ->
  json resFind = Ok dataFind -> ok resFind = true ->
  findRowByKey "T1" (firstColumn dataFind) = Some 3 ->
  batchWrites
    (trace (updateLead w this "T1" [("tripId", Some "T1"); ("status", Some "Hot Leads")]))
  = [[ (worksheetName this +:+ "!A3", Some "T1");
       (worksheetName this +:+ "!B3", Some "Hot Leads") ]].
Proof.
  intros Hcm Htok Hnet Hjson Hok Hfind.
  destruct (updateLead_found_batch w this "T1"
              [("tripId", Some "T1"); ("status", Some "Hot Leads")]
              tr0 token resFind dataFind 3 Htok Hnet Hjson Hok Hfind)
    as (report & -> & Hreport).
  { rewrite Hcm. discriminate. }
  cbn [trace fst].
  change (tr0 ++ ?a :: ?b :: report) with (tr0 ++ [a; b] ++ report).
  rewrite !batchWrites_app, (getAccessToken_token_batchWrites _ _ _ _ Htok),
    (netCalls_batchWrites _ Hreport), Hcm.
  reflexivity.
Qed.

Lemma updateLead_writes_key_and_status_witness :
  batchWrites
    (trace (updateLead (Examples.worldOf Examples.sheetT1 Examples.written) Examples.client
              "T1" [("tripId", Some "T1"); ("status", Some "Hot Leads")]))
  = [[("Sheet!A3", Some "T1"); ("Sheet!B3", Some "Hot Leads")]].
Proof.
  eapply (updateLead_writes_key_and_status
            (Examples.worldOf Examples.sheetT1 Examples.written) Examples.client);
    reflexivity.
Defined.

(** The scenario of C1 run on the code: "T1" is in row 3 and the batch
    write is not the single pair for B3. *)
Lemma updateLead_single_write_counterexample :
  findRowByKey "T1" ["T0"; "T1"; "T2"] = Some 3
  /\ batchWrites
       (trace (updateLead (Examples.worldOf Examples.sheetT1 Examples.written)
                 Examples.client "T1"
                 [("tripId", Some "T1"); ("status", Some "Hot Leads")]))
     <> [[("Sheet!B3", Some "Hot Leads")]].
Proof. split; [reflexivity|]. vm_compute. discriminate. Qed.

(** C3 (amended). When no key of [updates] with a defined value has an
    entry in the column mapping, [updateLead] sends no batch write: zero
    cells are written.  The token exchange and the read of the key column
    come first and are still performed; once they succeed and the row is
    found, the call logs a warning and returns normally, without alert. *)
Theorem updateLead_unmapped_is_noop (w : world) (this : t) (tripId : string)
    (updates : object) :
  (forall key v, In (key, Some v) updates -> assoc key (columnMappings this) = None) ->
  batchWrites (trace (updateLead w this tripId updates)) = []
  /\ forall tr0 token resFind dataFind rowNumber,
       getAccessToken w this = (tr0, Ok token) ->
       net w (findRequest w this token) = Ok resFind ->
       json resFind = Ok dataFind -> ok resFind = true ->
       findRowByKey tripId (firstColumn dataFind) = Some rowNumber ->
       updateLead w this tripId updates =
         (tr0 ++ [ Net (findRequest w this token);
                   Console WarnLevel ["No valid fields to update for lead:"; tripId] ],
          Ok tt).
Proof.
  intros Hnone.
  pose proof (fun r => recordToCellWrites_nil (worksheetName this) _ _ r Hnone) as Hdata.
  split; [now apply updateLead_no_batch|].
  intros tr0 token resFind dataFind rowNumber Htok Hnet Hjson Hok Hfind.
  now apply (updateLead_found_nothing w this tripId updates
               tr0 token resFind dataFind rowNumber).
Qed.

Lemma updateLead_unmapped_is_noop_witness :
  batchWrites
    (trace (updateLead (Examples.worldOf Examples.sheetT1 Examples.written) Examples.client
              "T1" [("notes", Some "call back"); ("status", None)]))
  = [].
Proof.
  apply (updateLead_unmapped_is_noop
           (Examples.worldOf Examples.sheetT1 Examples.written) Examples.client "T1"
           [("notes", Some "call back"); ("status", None)]).
  intros key v [[= <- <-] | [[=] | []]]. reflexivity.
Defined.

(** The no-op of C3 run on the code: the field "notes" has no mapping
    entry, and still the provider is called. *)
Lemma updateLead_no_network_counterexample :
  assoc "notes" (columnMappings Examples.client) = None
  /\ netCalls
       (trace (updateLead (Examples.worldOf Examples.sheetT1 Examples.written)
                 Examples.client "T1" [("notes", Some "call back")]))
     <> [].
Proof. split; [reflexivity|]. vm_compute. discriminate. Qed.

(** C5. [findRowByKey] returns the position of the first cell of the key
    column that equals the trip identifier, as strings and with case, plus
    2 for the header offset; on ["T1", "T2", "T3"] the key "T2" is row 3
    and "T9" is not found.  When the key is not found [updateLead] stops
    after the lookup: it alerts and sends no batch write. *)
Theorem findRowByKey_header_offset :
  (forall tripId colVals r,
     findRowByKey tripId colVals = Some r <->
     exists i : nat,
       r = Z.of_nat i + 2 /\ colVals !! i = Some tripId
       /\ forall j, (j < i)%nat -> colVals !! j <> Some tripId)
  /\ (forall tripId colVals, findRowByKey tripId colVals = None <-> ~ In tripId colVals)
  /\ findRowByKey "T2" ["T1"; "T2"; "T3"] = Some 3
  /\ findRowByKey "T9" ["T1"; "T2"; "T3"] = None
  /\ findRowByKey "t2" ["T1"; "T2"; "T3"] = None
  /\ (forall w this tripId updates tr0 token resFind dataFind,
        getAccessToken w this = (tr0, Ok token) ->
        net w (findRequest w this token) = Ok resFind ->
        json resFind = Ok dataFind -> ok resFind = true ->
        findRowByKey tripId (firstColumn dataFind) = None ->
        batchWrites (trace (updateLead w this tripId updates)) = []
        /\ updateLead w this tripId updates =
             (tr0 ++ [ Net (findRequest w this token);
                       Alert ("⚠️ Trip ID " +:+ tripId +:+ " not found in Google Sheet.");
                       Console ErrorLevel
                         ["UpdateLead error:"; "Trip ID " +:+ tripId +:+ " not found."];
                       Alert ("❌ Error updating lead: " +:+
                              errorText ("Trip ID " +:+ tripId +:+ " not found.")) ],
              Ok tt)).
Proof.
  split; [exact findRowByKey_first|]. split; [exact findRowByKey_none|].
  do 3 (split; [reflexivity|]).
  intros w this tripId updates tr0 token resFind dataFind Htok Hnet Hjson Hok Hfind.
  rewrite (updateLead_not_found w this tripId updates tr0 token resFind dataFind
             Htok Hnet Hjson Hok Hfind).
  split; [|reflexivity]. cbn [trace fst].
  rewrite batchWrites_app, (getAccessToken_token_batchWrites _ _ _ _ Htok).
  reflexivity.
Qed.

Lemma findRowByKey_header_offset_witness :
  findRowByKey "T9" ["T0"; "T1"; "T2"] = None
  /\ batchWrites
       (trace (updateLead (Examples.worldOf Examples.sheetT1 Examples.written)
                 Examples.client "T9" [("status", Some "Hot Leads")]))
     = [].
Proof.
  split; [reflexivity|].
  eapply (proj2 (proj2 (proj2 (proj2 (proj2 findRowByKey_header_offset))))
            (Examples.worldOf Examples.sheetT1 Examples.written) Examples.client "T9");
    reflexivity.
Defined.

End Update.

(** ** Rows and records *)

Section Rows.

(** Reading after writing: an array behaves as a map from numbers to
    values, whether the number is an index or a property key. *)
Lemma arr_get_set (a : array) (i j : Z) (v : string) :
  arr_get (arr_set a i v) j = if i =? j then Some v else arr_get a j.
Proof.
  unfold arr_get, arr_set.
  destruct (is_index i) eqn:Ii.
  - assert (0 <= i) as Hi by (unfold is_index in Ii; lia).
    destruct (Z.to_nat i <? length (elems a))%nat eqn:Hlen; cbn [elems props].
    + apply Nat.ltb_lt in Hlen.
      destruct (i =? j) eqn:E.
      * apply Z.eqb_eq in E as <-. rewrite Ii.
        now rewrite list_lookup_insert_eq.
      * apply Z.eqb_neq in E. destruct (is_index j) eqn:Ij; [|reflexivity].
        rewrite list_lookup_insert_ne; [reflexivity|].
        unfold is_index in Ij. lia.
    + apply Nat.ltb_ge in Hlen.
      destruct (i =? j) eqn:E.
      * apply Z.eqb_eq in E as <-. rewrite Ii.
        rewrite lookup_app_r by exact Hlen.
        rewrite lookup_app_r by (rewrite length_replicate; lia).
        rewrite length_replicate, Nat.sub_diag. reflexivity.
      * apply Z.eqb_neq in E. destruct (is_index j) eqn:Ij; [|reflexivity].
        assert (Z.to_nat j <> Z.to_nat i) as Hne by (unfold is_index in Ij; lia).
        destruct (decide (Z.to_nat j < length (elems a))%nat) as [Hj|Hj].
        -- now rewrite lookup_app_l.
        -- rewrite (lookup_ge_None_2 (elems a)) by lia.
           rewrite lookup_app_r by lia.
           destruct (decide (Z.to_nat j < Z.to_nat i)%nat) as [Hji|Hji].
           ++ rewrite lookup_app_l by (rewrite length_replicate; lia).
              rewrite lookup_replicate_2 by lia. reflexivity.
           ++ rewrite lookup_app_r by (rewrite length_replicate; lia).
              rewrite length_replicate.
              rewrite lookup_ge_None_2 by (cbn [length]; lia). reflexivity.
  - cbn [elems props]. destruct (i =? j) eqn:E.
    + apply Z.eqb_eq in E as <-. rewrite Ii. cbn [prop_get]. now rewrite Z.eqb_refl.
    + destruct (is_index j); [reflexivity|]. cbn [prop_get].
      now rewrite (Z.eqb_sym j i), E.
Qed.

Lemma assoc_set (o : object) (k k' : string) (v : option string) :
  assoc k' (obj_set o k v) = if String.eqb k' k then Some v else assoc k' o.
Proof.
  induction o as [|[k0 v0] o IH]; cbn [obj_set assoc]; [reflexivity|].
  destruct (String.eqb k k0) eqn:E0; cbn [assoc].
  - apply String.eqb_eq in E0 as ->. now destruct (String.eqb k' k0).
  - rewrite IH. destruct (String.eqb k' k0) eqn:E1; [|reflexivity].
    apply String.eqb_eq in E1 as ->. now rewrite String.eqb_sym, E0.
Qed.

Lemma obj_get_set (o : object) (k k' : string) (v : option string) :
  obj_get (obj_set o k v) k' = if String.eqb k' k then v else obj_get o k'.
Proof. unfold obj_get. rewrite assoc_set. now destruct (String.eqb k' k). Qed.

Lemma assoc_not_in {V : Type} (k : string) (l : list (string * V)) :
  ~ In k (map fst l) -> assoc k l = None.
Proof.
  induction l as [|[k0 v0] l IH]; cbn [map fst In assoc]; [reflexivity|].
  intros H. destruct (String.eqb k k0) eqn:E.
  - apply String.eqb_eq in E as ->. exfalso. apply H. now left.
  - apply IH. intros Hin. apply H. now right.
Qed.

Lemma assoc_in {V : Type} (k : string) (v : V) (l : list (string * V)) :
  NoDup (map fst l) -> In (k, v) l -> assoc k l = Some v.
Proof.
  induction l as [|[k0 v0] l IH]; cbn [map fst In assoc]; [intros _ []|].
  intros [Hk0 Hl]%NoDup_cons [[= -> ->] | Hin].
  - now rewrite String.eqb_refl.
  - destruct (String.eqb k k0) eqn:E; [|now apply IH].
    apply String.eqb_eq in E as ->. exfalso. apply Hk0.
    apply list_elem_of_In. change k0 with (fst (k0, v)). now apply in_map.
Qed.

(** The record of a row has, under each mapped key, the cell of its
    column, or the empty string. *)
Lemma rowToRecord_get (cm : mapping) (row : array) (key col : string) :
  NoDup (map fst cm) -> In (key, col) cm ->
  obj_get (rowToRecord cm row) key
  = Some (or_else (arr_get row (columnToIndex col)) "").
Proof.
  unfold rowToRecord. intros Hnd Hin.
  enough (forall acc,
    obj_get (fold_left
      (fun lead e => obj_set lead e.1 (Some (or_else (arr_get row (columnToIndex e.2)) "")))
      cm acc) key
    = match assoc key cm with
      | Some c => Some (or_else (arr_get row (columnToIndex c)) "")
      | None => obj_get acc key
      end) as H.
  { rewrite H. now rewrite (assoc_in key col cm Hnd Hin). }
  clear Hin. induction cm as [|[k0 c0] cm IH]; intros acc; [reflexivity|].
  apply NoDup_cons in Hnd as [Hk0 Hnd].
  cbn [fold_left assoc fst snd]. rewrite (IH Hnd), obj_get_set.
  destruct (String.eqb key k0) eqn:E; [|reflexivity].
  apply String.eqb_eq in E as ->.
  rewrite assoc_not_in; [reflexivity|]. now rewrite <- list_elem_of_In.
Qed.

Lemma appendCell_written (now : Z) (lead : object) (row : array) (e : string * string) :
  appendCell now lead row e
  = match writtenValue now lead e.1 with
    | Some v => arr_set row (entryIndex e) v
    | None => row
    end.
Proof.
  unfold appendCell, writtenValue, entryIndex, tripIdCell.
  now destruct (String.eqb e.1 "tripId").
Qed.

(** A cell that no entry of the mapping resolves to keeps its value. *)
Lemma appendCells_other (now : Z) (lead : object) (cm : mapping) (row : array) (i : Z) :
  (forall e, In e cm -> entryIndex e <> i) ->
  arr_get (fold_left (appendCell now lead) cm row) i = arr_get row i.
Proof.
  revert row; induction cm as [|e cm IH]; intros row Hne; [reflexivity|].
  cbn [fold_left]. rewrite IH by (intros e' He'; apply Hne; now right).
  rewrite appendCell_written. destruct (writtenValue now lead e.1); [|reflexivity].
  rewrite arr_get_set.
  destruct (entryIndex e =? i) eqn:E; [|reflexivity].
  apply Z.eqb_eq in E. exfalso. apply (Hne e); [now left | exact E].
Qed.

(** With pairwise distinct columns, the cell of an entry holds what its
    own turn of the loop wrote. *)
Lemma appendCells_own (now : Z) (lead : object) (cm : mapping) (row : array)
    (e : string * string) :
  NoDup (map entryIndex cm) -> In e cm ->
  arr_get (fold_left (appendCell now lead) cm row) (entryIndex e)
  = match writtenValue now lead e.1 with
    | Some v => Some v
    | None => arr_get row (entryIndex e)
    end.
Proof.
  revert row; induction cm as [|e0 cm IH]; intros row Hnd Hin; [destruct Hin|].
  cbn [map] in Hnd. apply NoDup_cons in Hnd as [Hfresh Hnd].
  cbn [fold_left]. destruct Hin as [-> | Hin].
  - rewrite appendCells_other.
    + rewrite appendCell_written. destruct (writtenValue now lead e.1); [|reflexivity].
      now rewrite arr_get_set, Z.eqb_refl.
    + intros e' He' Heq. apply Hfresh. rewrite <- Heq.
      apply list_elem_of_In. now apply in_map.
  - rewrite (IH _ Hnd Hin). destruct (writtenValue now lead e.1); [reflexivity|].
    rewrite appendCell_written. destruct (writtenValue now lead e0.1); [|reflexivity].
    rewrite arr_get_set. destruct (entryIndex e0 =? entryIndex e) eqn:E; [|reflexivity].
    apply Z.eqb_eq in E. exfalso. apply Hfresh. rewrite E.
    apply list_elem_of_In. now apply in_map.
Qed.

(** When only the trip identifier resolves to cell [i], that cell ends up
    with the trip identifier. *)
Lemma appendCells_tripId (now : Z) (lead : object) (cm : mapping) (row : array) (i : Z) :
  (forall e, In e cm -> entryIndex e = i -> e.1 = "tripId") ->
  arr_get row i = Some (tripIdCell now lead)
  \/ (exists e, In e cm /\ e.1 = "tripId" /\ entryIndex e = i) ->
  arr_get (fold_left (appendCell now lead) cm row) i = Some (tripIdCell now lead).
Proof.
  revert row; induction cm as [|e0 cm IH]; intros row Honly Hset.
  - destruct Hset as [H | (e & [] & _)]. exact H.
  - cbn [fold_left]. apply IH; [intros e He; apply Honly; now right|].
    rewrite appendCell_written.
    destruct (decide (entryIndex e0 = i)) as [E0|E0].
    + left. unfold writtenValue. rewrite (Honly e0 (or_introl eq_refl) E0).
      cbn [String.eqb Ascii.eqb Bool.eqb]. rewrite arr_get_set, E0. now rewrite Z.eqb_refl.
    + destruct Hset as [H | (e & [<- | He] & Hk & Hi)]; [| congruence | eauto].
      left. destruct (writtenValue now lead e0.1); [|exact H].
      rewrite arr_get_set. apply Z.eqb_neq in E0. now rewrite E0.
Qed.

Lemma foldr_max_spec (x : Z) (ys : list Z) :
  In (foldr Z.max x ys) (x :: ys)
  /\ forall y, In y (x :: ys) -> y <= foldr Z.max x ys.
Proof.
  induction ys as [|y ys [IHin IHle]]; cbn [foldr].
  - split; [now left|]. intros y [<- | []]. lia.
  - split.
    + destruct (Z.max_spec y (foldr Z.max x ys)) as [[_ ->] | [_ ->]].
      * destruct IHin as [<- | H]; [now left | right; now right].
      * right. now left.
    + intros z [<- | [<- | Hz]].
      * specialize (IHle x (or_introl eq_refl)). lia.
      * lia.
      * specialize (IHle z (or_intror Hz)). lia.
Qed.

Lemma Math_max_spec (xs : list Z) (x : Z) :
  In x xs ->
  exists m, Math_max xs = Some m /\ In m xs /\ forall y, In y xs -> y <= m.
Proof.
  destruct xs as [|x0 xs]; [intros []|]. intros _.
  exists (foldr Z.max x0 xs). split; [reflexivity|]. apply foldr_max_spec.
Qed.

Lemma arr_get_filled (n i : Z) (v : string) :
  0 <= i < n -> n <= MAX_ARRAY_LENGTH ->
  arr_get (Array (replicate (Z.to_nat n) (Some v)) []) i = Some v.
Proof.
  intros Hi Hn. unfold arr_get, is_index. cbn [elems].
  replace ((0 <=? i) && (i <? MAX_ARRAY_LENGTH)) with true by lia.
  rewrite lookup_replicate_2 by lia. reflexivity.
Qed.

(** The row can be allocated as soon as some column resolves to -1 or more
    and every column resolves below the largest array length; it is then
    the filled array after the loop. *)
Lemma recordToRow_allocates (now : Z) (cm : mapping) (lead : object)
    (e0 : string * string) :
  In e0 cm -> -1 <= entryIndex e0 ->
  (forall e, In e cm -> entryIndex e < MAX_ARRAY_LENGTH) ->
  exists m,
    entryIndex e0 <= m < MAX_ARRAY_LENGTH
    /\ (forall e, In e cm -> entryIndex e <= m)
    /\ recordToRow now cm lead
       = Ok (fold_left (appendCell now lead) cm
               (Array (replicate (Z.to_nat (m + 1)) (Some "")) [])).
Proof.
  intros Hin Hlo Hhi.
  destruct (Math_max_spec (map entryIndex cm) (entryIndex e0)) as (m & Hm & Hmin & Hmax).
  { now apply in_map. }
  exists m.
  assert (forall e, In e cm -> entryIndex e <= m) as Hle.
  { intros e He. apply Hmax. now apply in_map. }
  apply in_map_iff in Hmin as (em & <- & Hem).
  specialize (Hhi em Hem). specialize (Hle e0 Hin).
  split; [lia|]. split; [intros e He; apply Hmax; now apply in_map|].
  unfold recordToRow. change (fun e : string * string => columnToIndex e.2) with entryIndex.
  rewrite Hm. cbn [fmap option_fmap option_map new_Array_fill].
  replace ((0 <=? entryIndex em + 1) && (entryIndex em + 1 <=? MAX_ARRAY_LENGTH))
    with true by lia.
  reflexivity.
Qed.

Lemma or_else_empty (s : string) : or_else (Some s) "" = s.
Proof. now destruct s. Qed.

(** The decimal numeral of a natural number is a non-empty string of
    digits. *)
Lemma string_of_uint_digits (d : Decimal.uint) :
  allDigits (NilEmpty.string_of_uint d) = true.
Proof. induction d; cbn [NilEmpty.string_of_uint allDigits]; auto. Qed.

Lemma numberToString_digits (n : Z) :
  0 <= n -> numberToString n <> "" /\ allDigits (numberToString n) = true.
Proof.
  intros Hn. unfold numberToString.
  destruct n as [|p|p]; [split; [discriminate | reflexivity] | | lia].
  cbn [Z.to_int NilZero.string_of_int].
  unfold NilZero.string_of_uint.
  pose proof (string_of_uint_digits (Pos.to_uint p)) as D.
  destruct (Pos.to_uint p); (split; [discriminate | exact D || reflexivity]).
Qed.

End Rows.

(** ** Append: the row codec and [appendLead] *)

Section Append.

(** [appendLead] once the token is granted and the row is built: one POST
    of the row, and the provider's rejection becomes the thrown error. *)
Lemma appendLead_posts (w : world) (this : t) (lead : object) tr0 token row :
  getAccessToken w this = (tr0, Ok token) ->
  recordToRow (now w) (columnMappings this) lead = Ok row ->
  appendLead w this lead =
    (tr0 ++ [Net (appendRequest w this token row)],
     match net w (appendRequest w this token row) with
     | Ok res => if ok res then Ok tt else Throw ("Failed to append lead: " +:+ text res)
     | Throw msg => Throw msg
     end).
Proof.
  intros Htok Hrow. unfold appendLead. rewrite Htok. run. rewrite Hrow. cbn [app].
  destruct (net w (appendRequest w this token row)) as [res|msg]; [|reflexivity].
  destruct (ok res); reflexivity.
Qed.

(** C4 (amended). For a non-empty column mapping with distinct keys whose
    columns resolve to pairwise distinct array indices (0 up to 2^32 - 2),
    the row of the append direction is built, and reading it back gives,
    for every mapped field: the trip identifier cell (the lead's own
    identifier, or the synthesized one) under tripId; the lead's value
    under a field the lead defines; the empty string under a field the
    lead does not define. *)
Theorem roundTrip_mapped_fields (now : Z) (cm : mapping) (lead : object) :
  cm <> [] ->
  NoDup (map fst cm) ->
  NoDup (map entryIndex cm) ->
  (forall e, In e cm -> 0 <= entryIndex e < MAX_ARRAY_LENGTH) ->
  exists record,
    roundTrip now cm lead = Ok record
    /\ forall key col, In (key, col) cm ->
         (key = "tripId" -> obj_get record key = Some (tripIdCell now lead))
         /\ (key <> "tripId" ->
             forall v, obj_get lead key = Some v -> obj_get record key = Some v)
         /\ (key <> "tripId" ->
             obj_get lead key = None -> obj_get record key = Some "").
Proof.
  intros Hne Hkeys Hcols Hidx.
  destruct cm as [|e0 cm0] eqn:Ecm; [congruence|]. rewrite <- Ecm in *. clear Hne.
  assert (In e0 cm) as Hin0 by (rewrite Ecm; now left).
  destruct (recordToRow_allocates now cm lead e0 Hin0) as (m & Hm & Hle & Hrow).
  { specialize (Hidx e0 Hin0). lia. }
  { intros e He. apply Hidx, He. }
  unfold roundTrip. rewrite Hrow. eexists. split; [reflexivity|].
  intros key col Hin.
  rewrite (rowToRecord_get cm _ key col Hkeys Hin).
  change (columnToIndex col) with (entryIndex (key, col)).
  rewrite (appendCells_own now lead cm _ (key, col) Hcols Hin).
  rewrite arr_get_filled
    by (specialize (Hidx _ Hin); specialize (Hle _ Hin); lia).
  unfold writtenValue. cbn [fst].
  destruct (String.eqb key "tripId") eqn:E.
  - apply String.eqb_eq in E. rewrite or_else_empty.
    split; [reflexivity|]. split; intros; congruence.
  - apply String.eqb_neq in E.
    split; [congruence|]. split; intros _.
    + intros v ->. now rewrite or_else_empty.
    + intros ->. reflexivity.
Qed.

Lemma roundTrip_mapped_fields_witness :
  exists record,
    roundTrip 1700000000000 [("tripId", "A"); ("status", "C"); ("phone", "AA")]
      [("status", Some "Hot Leads")] = Ok record
    /\ obj_get record "status" = Some "Hot Leads"
    /\ obj_get record "phone" = Some ""
    /\ obj_get record "tripId" = Some "T1700000000000".
Proof.
  destruct (roundTrip_mapped_fields 1700000000000
              [("tripId", "A"); ("status", "C"); ("phone", "AA")]
              [("status", Some "Hot Leads")]) as (record & Hrecord & Hfields).
  - discriminate.
  - apply (bool_decide_unpack _). vm_compute. exact I.
  - apply (bool_decide_unpack _). vm_compute. exact I.
  - intros e [<- | [<- | [<- | []]]]; vm_compute; split; congruence.
  - exists record. split; [exact Hrecord|].
    split; [|split].
    + destruct (Hfields "status" "C") as (_ & H & _); [cbn; tauto|].
      apply H; [discriminate | reflexivity].
    + destruct (Hfields "phone" "AA") as (_ & _ & H); [cbn; tauto|].
      apply H; [discriminate | reflexivity].
    + destruct (Hfields "tripId" "A") as (H & _); [cbn; tauto|].
      now apply H.
Defined.

(** Two fields mapped to the same column: the field written first reads
    back with the value of the other. *)
Lemma roundTrip_shared_column_counterexample :
  exists record,
    roundTrip 0 [("status", "B"); ("remarks", "B")]
      [("status", Some "Hot Leads"); ("remarks", Some "call back")] = Ok record
    /\ obj_get record "status"
       <> obj_get [("status", Some "Hot Leads"); ("remarks", Some "call back")] "status".
Proof. eexists. split; [vm_compute; reflexivity|]. vm_compute. discriminate. Qed.

(** C6. When the mapping has a column for tripId that no other field
    resolves to, the row that [appendLead] posts has the trip identifier in
    that cell: for a lead whose tripId is absent or empty the cell is "T"
    followed by the decimal digits of the millisecond clock (at least one
    digit, the clock being at or after the epoch), and a non-empty tripId
    is written verbatim. *)
Theorem appendLead_tripId_cell (w : world) (this : t) (lead : object)
    tr0 token col :
  getAccessToken w this = (tr0, Ok token) ->
  In ("tripId", col) (columnMappings this) ->
  0 <= columnToIndex col ->
  (forall e, In e (columnMappings this) -> entryIndex e < MAX_ARRAY_LENGTH) ->
  (forall e, In e (columnMappings this) ->
     entryIndex e = columnToIndex col -> e.1 = "tripId") ->
  exists row,
    trace (appendLead w this lead) = tr0 ++ [Net (appendRequest w this token row)]
    /\ elems row !! Z.to_nat (columnToIndex col) = Some (Some (tripIdCell (now w) lead))
    /\ (truthy_opt (obj_get lead "tripId") = false ->
        tripIdCell (now w) lead = "T" +:+ numberToString (now w))
    /\ (0 <= now w ->
        numberToString (now w) <> "" /\ allDigits (numberToString (now w)) = true)
    /\ (forall s, obj_get lead "tripId" = Some s -> s <> "" ->
        tripIdCell (now w) lead = s).
Proof.
  intros Htok Hin Hlo Hhi Honly.
  destruct (recordToRow_allocates (now w) (columnMappings this) lead ("tripId", col) Hin)
    as (m & Hm & Hle & Hrow).
  { unfold entryIndex. cbn [snd]. lia. }
  { exact Hhi. }
  set (row := fold_left (appendCell (now w) lead) (columnMappings this) _) in Hrow.
  exists row. split; [|split; [|split; [|split]]].
  - rewrite (appendLead_posts w this lead tr0 token _ Htok Hrow). reflexivity.
  - assert (arr_get row (columnToIndex col) = Some (tripIdCell (now w) lead)) as Hcell.
    { apply appendCells_tripId; [exact Honly|]. right. now exists ("tripId", col). }
    unfold arr_get in Hcell.
    replace (is_index (columnToIndex col)) with true in Hcell
      by (unfold is_index, entryIndex in *; cbn [snd] in Hm; lia).
    destruct (elems row !! Z.to_nat (columnToIndex col)) as [[cell|]|];
      cbn in Hcell; congruence.
  - unfold tripIdCell, or_else, truthy_opt.
    destruct (obj_get lead "tripId") as [s|]; [|reflexivity]. now intros ->.
  - apply numberToString_digits.
  - intros s Hs Hne. unfold tripIdCell. rewrite Hs. cbn [or_else].
    now rewrite (proj2 (truthy_nonempty s) Hne).
Qed.

Lemma appendLead_tripId_cell_witness :
  exists row,
    trace (appendLead (Examples.worldOf Examples.sheetT1 Examples.written)
             Examples.client [("tripId", Some ""); ("status", Some "Unfollowed")])
    = [ Net (tokenRequest "jwt");
        Net (appendRequest (Examples.worldOf Examples.sheetT1 Examples.written)
               Examples.client (Some "tok") row) ]
    /\ elems row !! 0%nat = Some (Some "T1700000000000").
Proof.
  destruct (appendLead_tripId_cell
              (Examples.worldOf Examples.sheetT1 Examples.written) Examples.client
              [("tripId", Some ""); ("status", Some "Unfollowed")]
              [Net (tokenRequest "jwt")] (Some "tok") "A")
    as (row & Htrace & Hcell & _).
  - reflexivity.
  - cbn. tauto.
  - vm_compute. discriminate.
  - intros e [<- | [<- | []]]; reflexivity.
  - intros e [<- | [<- | []]]; [reflexivity | vm_compute; discriminate].
  - exists row. split; [exact Htrace | exact Hcell].
Defined.

End Append.

(** ** Fetch: [fetchLeads] *)

Section Fetch.

(** C9. A successful fetch whose body has no [values] field, as the
    provider answers for an empty range, returns the empty sequence of
    leads; nothing is thrown. *)
Theorem fetchLeads_empty_range (w : world) (this : t) res data :
  net w (fetchRequest w this) = Ok res ->
  ok res = true ->
  json res = Ok data ->
  values data = None ->
  fetchLeads w this = ([Net (fetchRequest w this)], Ok []).
Proof.
  intros Hnet Hok Hjson Hvalues. unfold fetchLeads. run.
  rewrite Hnet, Hok, Hjson, Hvalues. reflexivity.
Qed.

Lemma fetchLeads_empty_range_witness :
  fetchLeads (Examples.worldOf None Examples.written) Examples.client
  = ([Net (fetchRequest (Examples.worldOf None Examples.written) Examples.client)], Ok []).
Proof.
  eapply (fetchLeads_empty_range (Examples.worldOf None Examples.written) Examples.client);
    reflexivity.
Defined.

(** A non-success status ends [fetchLeads] with its fixed message. *)
Lemma fetchLeads_failed (w : world) (this : t) res :
  net w (fetchRequest w this) = Ok res ->
  ok res = false ->
  fetchLeads w this = ([Net (fetchRequest w this)], Throw "Failed to fetch leads.").
Proof.
  intros Hnet Hok. unfold fetchLeads. run. rewrite Hnet, Hok. reflexivity.
Qed.

End Fetch.

(** ** The add-lead dialog *)

Section Dialog.

Import AddLeadDialog.

(** The prefix that [appendLead] puts before the provider's text neither
    contains "protected" nor completes it. *)
Lemma includes_append_failure (t : string) :
  includes ("Failed to append lead: " +:+ t) "protected" = includes t "protected".
Proof. repeat rewrite append_cons. rewrite append_nil. reflexivity. Qed.



(** What the [catch] block shows for an error. *)
Lemma handleSubmit_stopped (g : globals) (w : world) (f : formData) (e : error) :
  readGlobal "authLib" (authLib g) = Throw e
  \/ (exists session,
        readGlobal "authLib" (authLib g) = Ok session
        /\ (readGlobal "GoogleSheetsBackendService" (GoogleSheetsBackendService g) = Throw e
            \/ (exists service,
                  readGlobal "GoogleSheetsBackendService" (GoogleSheetsBackendService g)
                    = Ok service
                  /\ userName session = Throw e))) ->
  handleSubmit g w f =
    ([ SetSaving true;
       if truthy (errorMessage e) && includes (errorMessage e) "protected"
       then SetShowProtectionError true
       else Toast DestructiveToast "Error adding lead" (errorMessage e);
       SetSaving false ],
     Ok tt).
Proof.
  unfold handleSubmit.
  intros [-> | (session & -> & [-> | (service & -> & Hname)])]; run;
    rewrite ?Hname; cbn [fst snd app];
    now destruct (truthy (errorMessage e) && includes (errorMessage e) "protected").
Qed.

(** On a host that defines both names: a service that returns normally,
    and a service that throws. *)
Lemma handleSubmit_returned (g : globals) (w : world) (f : formData)
    session name (service : object -> M unit) tr :
  authLib g = Some (Ok session) ->
  GoogleSheetsBackendService g = Some (Ok service) ->
  userName session = Ok name ->
  service (leadOfForm w name f) = (tr, Ok tt) ->
  handleSubmit g w f =
    (SetSaving true :: tr ++
       [ Toast DefaultToast "Lead added successfully"
           "The lead has been added to Google Sheets";
         OnSuccess; OnClose; SetSaving false ],
     Ok tt).
Proof.
  intros Hauth Hservice Hname Hreturn. unfold handleSubmit.
  rewrite Hauth, Hservice. cbn [readGlobal]. run. rewrite Hname, Hreturn. cbn [app].
  now rewrite <- !app_assoc.
Qed.

Lemma handleSubmit_thrown (g : globals) (w : world) (f : formData)
    session name (service : object -> M unit) tr (message : error) :
  authLib g = Some (Ok session) ->
  GoogleSheetsBackendService g = Some (Ok service) ->
  userName session = Ok name ->
  service (leadOfForm w name f) = (tr, Throw message) ->
  handleSubmit g w f =
    (SetSaving true :: tr ++
       [ if truthy (errorMessage message) && includes (errorMessage message) "protected"
         then SetShowProtectionError true
         else Toast DestructiveToast "Error adding lead" (errorMessage message);
         SetSaving false ],
     Ok tt).
Proof.
  intros Hauth Hservice Hname Hthrow. unfold handleSubmit.
  rewrite Hauth, Hservice. cbn [readGlobal]. run. rewrite Hname, Hthrow. cbn [app].
  destruct (truthy (errorMessage message) && includes (errorMessage message) "protected");
    cbn [app]; now rewrite <- app_assoc.
Qed.

(** The [catch] block by itself sorts the failures of an append: were the
    handler given a session and the sheets client of this repository, a
    rejection whose text contains "protected" would open the protection
    dialog and any other rejection would show the destructive toast. *)
Lemma handleSubmit_catch_sorts (g : globals) (w : world) (f : formData)
    session name this tr0 token row res :
  authLib g = Some (Ok session) ->
  GoogleSheetsBackendService g = Some (Ok (appendLead w this)) ->
  userName session = Ok name ->
  getAccessToken w this = (tr0, Ok token) ->
  recordToRow (now w) (columnMappings this) (leadOfForm w name f) = Ok row ->
  net w (appendRequest w this token row) = Ok res ->
  ok res = false ->
  handleSubmit g w f =
    (SetSaving true :: (tr0 ++ [Net (appendRequest w this token row)]) ++
       [ if includes (text res) "protected"
         then SetShowProtectionError true
         else Toast DestructiveToast "Error adding lead"
                ("Failed to append lead: " +:+ text res);
         SetSaving false ],
     Ok tt).
Proof.
  intros Hauth Hservice Hname Htok Hrow Hnet Hok.
  erewrite (handleSubmit_thrown g w f session name (appendLead w this)); trivial.
  2:{ rewrite (appendLead_posts w this _ tr0 token row Htok Hrow), Hnet, Hok.
      reflexivity. }
  cbn [errorMessage Error]. rewrite includes_append_failure.
  destruct (includes (text res) "protected"); [|now rewrite andb_false_r].
  now rewrite append_cons.
Qed.


End Dialog.

(** ** Propagation of failures *)

Section Failures.

(** C2 (amended). [appendLead] passes a rejected append on to its caller as
    an error that carries the provider's response text, and [fetchLeads]
    passes a non-success status on as an error with the fixed message
    'Failed to fetch leads.'.  [updateLead] handles every failure itself:
    it never throws, and after a failed lookup, a missing trip identifier
    or a rejected batch write it shows an alert with the failure's message
    and returns normally. *)
Theorem failures_thrown_or_alerted (w : world) (this : t) :
  (forall tripId updates, outcome (updateLead w this tripId updates) = Ok tt)
  /\ (forall tripId updates tr0 token resFind dataFind,
        getAccessToken w this = (tr0, Ok token) ->
        net w (findRequest w this token) = Ok resFind ->
        json resFind = Ok dataFind -> ok resFind = false ->
        updateLead w this tripId updates =
          (tr0 ++ [ Net (findRequest w this token);
                    Console ErrorLevel
                      ["UpdateLead error:"; "Failed to read Trip IDs: " +:+ json_text dataFind];
                    Alert ("❌ Error updating lead: " +:+
                           errorText ("Failed to read Trip IDs: " +:+ json_text dataFind)) ],
           Ok tt))
  /\ (forall tripId updates tr0 token resFind dataFind,
        getAccessToken w this = (tr0, Ok token) ->
        net w (findRequest w this token) = Ok resFind ->
        json resFind = Ok dataFind -> ok resFind = true ->
        findRowByKey tripId (firstColumn dataFind) = None ->
        updateLead w this tripId updates =
          (tr0 ++ [ Net (findRequest w this token);
                    Alert ("⚠️ Trip ID " +:+ tripId +:+ " not found in Google Sheet.");
                    Console ErrorLevel
                      ["UpdateLead error:"; "Trip ID " +:+ tripId +:+ " not found."];
                    Alert ("❌ Error updating lead: " +:+
                           errorText ("Trip ID " +:+ tripId +:+ " not found.")) ],
           Ok tt))
  /\ (forall tripId updates tr0 token resFind dataFind rowNumber data res result,
        getAccessToken w this = (tr0, Ok token) ->
        net w (findRequest w this token) = Ok resFind ->
        json resFind = Ok dataFind -> ok resFind = true ->
        findRowByKey tripId (firstColumn dataFind) = Some rowNumber ->
        recordToCellWrites (worksheetName this) (columnMappings this) updates rowNumber
          = data ->
        data <> [] ->
        net w (batchRequest this token data) = Ok res ->
        json res = Ok result -> ok res = false ->
        updateLead w this tripId updates =
          (tr0 ++ [ Net (findRequest w this token);
                    Net (batchRequest this token data);
                    Console ErrorLevel ["❌ Google Sheet update failed:"; json_text result];
                    Alert ("❌ Lead update failed: " +:+
                           or_else (error_message result) (statusText res)) ],
           Ok tt))
  /\ (forall lead tr0 token row res,
        getAccessToken w this = (tr0, Ok token) ->
        recordToRow (now w) (columnMappings this) lead = Ok row ->
        net w (appendRequest w this token row) = Ok res ->
        ok res = false ->
        appendLead w this lead =
          (tr0 ++ [Net (appendRequest w this token row)],
           Throw ("Failed to append lead: " +:+ text res)))
  /\ (forall res,
        net w (fetchRequest w this) = Ok res ->
        ok res = false ->
        fetchLeads w this = ([Net (fetchRequest w this)], Throw "Failed to fetch leads.")).
Proof.
  split; [|split; [|split; [|split; [|split]]]].
  - intros. apply updateLead_returns.
  - intros tripId updates tr0 token resFind dataFind Htok Hnet Hjson Hok.
    unfold updateLead. rewrite Htok. run. rewrite Hnet, Hjson, Hok.
    cbn [negb app]. now rewrite <- app_assoc.
  - intros. eapply updateLead_not_found; eassumption.
  - intros tripId updates tr0 token resFind dataFind rowNumber data res result
      Htok Hnet Hjson Hok Hfind Hdata Hne Hbatch Hresult Hrejected.
    unfold updateLead. rewrite Htok. run. rewrite Hnet, Hjson, Hok, Hfind, Hdata.
    destruct data as [|d data]; [congruence|].
    cbn [negb app length Nat.eqb]. rewrite Hbatch, Hresult, Hrejected.
    cbn [negb app]. rewrite <- ?app_assoc. reflexivity.
  - intros lead tr0 token row res Htok Hrow Hnet Hok.
    now rewrite (appendLead_posts w this lead tr0 token row Htok Hrow), Hnet, Hok.
  - intros. eapply fetchLeads_failed; eassumption.
Qed.

Lemma failures_thrown_or_alerted_witness :
  updateLead (Examples.worldOf Examples.sheetT1 (Examples.rejected "range is protected"))
    Examples.client "T1" [("status", Some "Hot Leads")]
  = ([ Net (tokenRequest "jwt");
       Net (findRequest
              (Examples.worldOf Examples.sheetT1 (Examples.rejected "range is protected"))
              Examples.client (Some "tok"));
       Net (batchRequest Examples.client (Some "tok") [("Sheet!B3", Some "Hot Leads")]);
       Console ErrorLevel ["❌ Google Sheet update failed:"; "range is protected"];
       Alert "❌ Lead update failed: range is protected" ],
     Ok tt)
  /\ appendLead (Examples.worldOf Examples.sheetT1 (Examples.rejected "range is protected"))
       Examples.client [("status", Some "Hot Leads")]
     = ([ Net (tokenRequest "jwt");
          Net (appendRequest
                 (Examples.worldOf Examples.sheetT1 (Examples.rejected "range is protected"))
                 Examples.client (Some "tok")
                 (Array [Some "T1700000000000"; Some "Hot Leads"] [])) ],
        Throw "Failed to append lead: range is protected").
Proof.
  pose proof (failures_thrown_or_alerted
                (Examples.worldOf Examples.sheetT1 (Examples.rejected "range is protected"))
                Examples.client) as (_ & _ & _ & Hbatch & Happend & _).
  split.
  - eapply (Hbatch "T1" [("status", Some "Hot Leads")] [Net (tokenRequest "jwt")]
              (Some "tok") _ _ 3 [("Sheet!B3", Some "Hot Leads")]
              (Response false "Bad Request" "range is protected"
                 (Ok (JsonBody None None (Some "range is protected") "range is protected")))
              (JsonBody None None (Some "range is protected") "range is protected"));
      try reflexivity. discriminate.
  - eapply (Happend [("status", Some "Hot Leads")] [Net (tokenRequest "jwt")]
              (Some "tok") (Array [Some "T1700000000000"; Some "Hot Leads"] [])
              (Response false "Bad Request" "range is protected"
                 (Ok (JsonBody None None (Some "range is protected") "range is protected"))));
      reflexivity.
Defined.

(** [updateLead] run on a sheet without the key "T9": the lookup finds
    nothing, and the call does not end in a thrown error. *)
Lemma updateLead_swallows_counterexample :
  findRowByKey "T9" ["T0"; "T1"; "T2"] = None
  /\ ~ (exists msg,
          outcome (updateLead (Examples.worldOf Examples.sheetT1 Examples.written)
                     Examples.client "T9" [("status", Some "Hot Leads")])
          = Throw msg).
Proof. split; [reflexivity|]. intros [msg H]. vm_compute in H. discriminate H. Qed.

End Failures.

(** * Further properties of the access client *)

(** ** Tokens and network calls *)

Section Tokens.

(** The only effect of [getAccessToken] is the token exchange, at most
    once. *)
Lemma getAccessToken_trace (w : world) (this : t) :
  trace (getAccessToken w this) = []
  \/ exists jwt, trace (getAccessToken w this) = [Net (tokenRequest jwt)].
Proof.
  unfold getAccessToken. run.
  destruct (truthy (serviceAccountJson this)); cbn [negb fst]; [|now left].
  destruct (signJwt w _ _) as [jwt|msg]; cbn [fst]; [|now left].
  right. exists jwt.
  destruct (net w (tokenRequest jwt)) as [res|msg]; cbn [fst app]; [|reflexivity].
  destruct (ok res); cbn [negb fst app]; [|reflexivity].
  destruct (json res); reflexivity.
Qed.

Lemma appendLead_token_failed (w : world) (this : t) (lead : object) tr0 msg :
  getAccessToken w this = (tr0, Throw msg) ->
  appendLead w this lead = (tr0, Throw msg).
Proof. intros H. unfold appendLead. rewrite H. reflexivity. Qed.

Lemma updateLead_token_failed (w : world) (this : t) (tripId : string)
    (updates : object) tr0 msg :
  getAccessToken w this = (tr0, Throw msg) ->
  updateLead w this tripId updates =
    (tr0 ++ [ Console ErrorLevel ["UpdateLead error:"; errorMessage msg];
              Alert ("❌ Error updating lead: " +:+ errorText msg) ],
     Ok tt).
Proof. intros H. unfold updateLead. rewrite H. reflexivity. Qed.

Lemma netCalls_app (tr1 tr2 : list event) :
  netCalls (tr1 ++ tr2) = netCalls tr1 ++ netCalls tr2.
Proof. apply omap_app. Qed.

(** X1. When [getAccessToken] throws, no sheet request is sent:
    [appendLead] throws the same error and [updateLead] alerts it (the
    message of the error, or its name when the message is empty) and
    returns, and the only network call either of them may have made is the
    token exchange. *)
Theorem no_token_no_sheet_request (w : world) (this : t) tr0 msg :
  getAccessToken w this = (tr0, Throw msg) ->
  (forall lead, appendLead w this lead = (tr0, Throw msg))
  /\ (forall tripId updates,
        outcome (updateLead w this tripId updates) = Ok tt
        /\ netCalls (trace (updateLead w this tripId updates)) = netCalls tr0
        /\ In (Alert ("❌ Error updating lead: " +:+ errorText msg))
              (trace (updateLead w this tripId updates)))
  /\ (netCalls tr0 = [] \/ exists jwt, netCalls tr0 = [tokenRequest jwt]).
Proof.
  intros Htok. split; [|split].
  - intros lead. now apply appendLead_token_failed.
  - intros tripId updates.
    rewrite (updateLead_token_failed w this tripId updates tr0 msg Htok).
    cbn [outcome trace fst snd]. split; [reflexivity|]. split.
    + rewrite netCalls_app. cbn. apply app_nil_r.
    + apply in_or_app. right. cbn. tauto.
  - destruct (getAccessToken_trace w this) as [E | [jwt E]];
      rewrite Htok in E; cbn [trace fst] in E; subst tr0; [now left|].
    right. now exists jwt.
Qed.

Lemma no_token_no_sheet_request_witness :
  appendLead
    (World (fun _ => Ok (Response false "Unauthorized" ""
                           (Throw (mkError "SyntaxError" "Unexpected end of JSON input"))))
       0 "1970-01-01" Examples.percentEncode (fun _ _ => Ok "jwt"))
    Examples.client [("status", Some "Hot Leads")]
  = ([Net (tokenRequest "jwt")], Throw "Failed to get access token.").
Proof.
  eapply (no_token_no_sheet_request _ Examples.client). reflexivity.
Defined.

(** X2. Fail fast: with no service account JSON configured, neither
    [appendLead] nor [updateLead] makes any network call; the first throws
    'Service Account JSON required.', the second alerts it. *)
Theorem no_service_account_no_call (w : world) (this : t) :
  serviceAccountJson this = "" ->
  (forall lead,
     appendLead w this lead = ([], Throw "Service Account JSON required."))
  /\ (forall tripId updates,
        updateLead w this tripId updates =
          ([ Console ErrorLevel ["UpdateLead error:"; "Service Account JSON required."];
             Alert "❌ Error updating lead: Service Account JSON required." ],
           Ok tt)).
Proof.
  intros Hjson.
  assert (getAccessToken w this = ([], Throw "Service Account JSON required.")) as Htok.
  { unfold getAccessToken. now rewrite Hjson. }
  split.
  - intros lead. now apply appendLead_token_failed.
  - intros tripId updates.
    now rewrite (updateLead_token_failed w this tripId updates _ _ Htok).
Qed.

Lemma no_service_account_no_call_witness :
  appendLead (Examples.worldOf Examples.sheetT1 Examples.written)
    (GoogleSheets.Make "abc" ["Sheet"] [("tripId", "A")] "" "key")
    [("status", Some "Hot Leads")]
  = ([], Throw "Service Account JSON required.").
Proof.
  apply (no_service_account_no_call (Examples.worldOf Examples.sheetT1 Examples.written)
           (GoogleSheets.Make "abc" ["Sheet"] [("tripId", "A")] "" "key")).
  reflexivity.
Defined.

(** X3. The network calls of [updateLead], whatever the provider answers:
    the token exchange; then, with the token, the read of the key column
    under that token; then, only when the read succeeded, the key was found
    and step 2 built some write, one batch write under the same token.
    Nothing else is ever sent. *)
Theorem updateLead_network_calls (w : world) (this : t) (tripId : string)
    (updates : object) :
  match outcome (getAccessToken w this) with
  | Throw _ =>
      netCalls (trace (updateLead w this tripId updates))
      = netCalls (trace (getAccessToken w this))
  | Ok token =>
      netCalls (trace (updateLead w this tripId updates))
      = netCalls (trace (getAccessToken w this)) ++ [findRequest w this token]
      \/ exists resFind dataFind rowNumber,
           net w (findRequest w this token) = Ok resFind
           /\ ok resFind = true /\ json resFind = Ok dataFind
           /\ findRowByKey tripId (firstColumn dataFind) = Some rowNumber
           /\ recordToCellWrites (worksheetName this) (columnMappings this)
                updates rowNumber <> []
           /\ netCalls (trace (updateLead w this tripId updates))
              = netCalls (trace (getAccessToken w this))
                ++ [ findRequest w this token;
                     batchRequest this token
                       (recordToCellWrites (worksheetName this) (columnMappings this)
                          updates rowNumber) ]
  end.
Proof.
  destruct (getAccessToken w this) as [tr0 [token|msg]] eqn:Htok; cbn [outcome trace fst snd].
  - destruct (net w (findRequest w this token)) as [resFind|msg] eqn:Hnet.
    2:{ left. unfold updateLead. rewrite Htok. run. rewrite Hnet. cbn [fst app].
        rewrite !netCalls_app. cbn. now rewrite app_nil_r. }
    destruct (json resFind) as [dataFind|msg] eqn:Hjson.
    2:{ left. unfold updateLead. rewrite Htok. run. rewrite Hnet, Hjson. cbn [fst app].
        rewrite !netCalls_app. cbn. now rewrite app_nil_r. }
    destruct (ok resFind) eqn:Hok.
    2:{ left. unfold updateLead. rewrite Htok. run. rewrite Hnet, Hjson, Hok.
        cbn [negb fst app]. rewrite !netCalls_app. cbn. now rewrite app_nil_r. }
    destruct (findRowByKey tripId (firstColumn dataFind)) as [rowNumber|] eqn:Hfind.
    2:{ left. rewrite (updateLead_not_found w this tripId updates tr0 token resFind
                         dataFind Htok Hnet Hjson Hok Hfind).
        cbn [trace fst]. rewrite netCalls_app. reflexivity. }
    destruct (recordToCellWrites (worksheetName this) (columnMappings this) updates
                rowNumber) as [|d data] eqn:Hdata.
    + left. rewrite (updateLead_found_nothing w this tripId updates tr0 token resFind
                       dataFind rowNumber Htok Hnet Hjson Hok Hfind Hdata).
      cbn [trace fst]. rewrite netCalls_app. reflexivity.
    + right. exists resFind, dataFind, rowNumber.
      rewrite Hdata. repeat (split; [easy|]).
      destruct (updateLead_found_batch w this tripId updates tr0 token resFind
                  dataFind rowNumber Htok Hnet Hjson Hok Hfind) as (report & -> & Hrep).
      { now rewrite Hdata. }
      cbn [trace fst]. rewrite Hdata.
      change (tr0 ++ ?a :: ?b :: report) with (tr0 ++ [a; b] ++ report).
      rewrite !netCalls_app, Hrep. cbn. now rewrite ?app_nil_r.
  - rewrite (updateLead_token_failed w this tripId updates tr0 msg Htok).
    cbn [trace fst]. rewrite netCalls_app. cbn. apply app_nil_r.
Qed.

(** X20. The network calls of [appendLead], whatever the provider
    answers: the token exchange, then at most one POST, sent only when the
    token was granted and the row could be built, carrying that row under
    that token. *)
Theorem appendLead_calls (w : world) (this : t) (lead : object) :
  netCalls (trace (appendLead w this lead)) = netCalls (trace (getAccessToken w this))
  \/ exists token row,
       outcome (getAccessToken w this) = Ok token
       /\ recordToRow (now w) (columnMappings this) lead = Ok row
       /\ trace (appendLead w this lead)
          = trace (getAccessToken w this) ++ [Net (appendRequest w this token row)].
Proof.
  destruct (getAccessToken w this) as [tr0 [token|msg]] eqn:Htok; cbn [outcome trace fst snd].
  - destruct (recordToRow (now w) (columnMappings this) lead) as [row|msg] eqn:Hrow.
    + right. exists token, row. repeat split.
      now rewrite (appendLead_posts w this lead tr0 token row Htok Hrow).
    + left. unfold appendLead. rewrite Htok. run. rewrite Hrow. cbn [fst app].
      now rewrite app_nil_r.
  - left. now rewrite (appendLead_token_failed w this lead tr0 msg Htok).
Qed.

End Tokens.

(** Two events, or two messages, that differ. *)
Ltac differ H := solve [discriminate H | injection H; intros; discriminate].

(** The event of [H] is in none of the listed places. *)
Ltac not_in H :=
  repeat (apply in_app_or in H as [H|H]); cbn [In] in H;
  repeat (destruct H as [H|H]; [try differ H|]); try contradiction.

(** ** What the user is told *)

Section Reports.

Import AddLeadDialog.

(** X4. [updateLead] shows the success alert only after a batch write that
    the provider accepted: it never reports success for a failed lookup, a
    missing trip identifier, an update without mapped fields or a rejected
    write. *)
Theorem updateLead_success_only_after_write (w : world) (this : t)
    (tripId : string) (updates : object) :
  In (Alert "✅ Lead updated in Sheet successfully!")
     (trace (updateLead w this tripId updates)) ->
  exists token data res,
    data <> []
    /\ In (Net (batchRequest this token data)) (trace (updateLead w this tripId updates))
    /\ net w (batchRequest this token data) = Ok res /\ ok res = true.
Proof.
  pose proof (getAccessToken_trace w this) as T.
  unfold updateLead.
  destruct (getAccessToken w this) as [tr0 [token|msg]]; run; cbn [trace fst] in T.
  2:{ intros H. apply in_app_or in H as [H|H]; [|not_in H].
      destruct T as [-> | [jwt ->]]; not_in H. }
  assert (~ In (Alert "✅ Lead updated in Sheet successfully!") tr0) as Htr0.
  { intros H. destruct T as [-> | [jwt ->]]; not_in H. }
  destruct (net w (findRequest w this token)) as [resFind|msg]; cbn [fst app].
  2:{ intros H. rewrite <- app_assoc in H. apply in_app_or in H as [H|H]; [tauto|not_in H]. }
  destruct (json resFind) as [dataFind|msg]; cbn [fst app].
  2:{ intros H. rewrite <- app_assoc in H. apply in_app_or in H as [H|H]; [tauto|not_in H]. }
  destruct (ok resFind); cbn [negb fst app].
  2:{ intros H. rewrite <- app_assoc in H. apply in_app_or in H as [H|H]; [tauto|not_in H]. }
  destruct (findRowByKey tripId (firstColumn dataFind)) as [rowNumber|]; cbn [fst app].
  2:{ intros H. rewrite <- app_assoc in H. apply in_app_or in H as [H|H]; [tauto|not_in H]. }
  destruct (recordToCellWrites _ _ updates rowNumber) as [|d data];
    cbn [length Nat.eqb fst app].
  { intros H. apply in_app_or in H as [H|H]; [tauto|not_in H]. }
  destruct (net w (batchRequest this token (d :: data))) as [res|msg] eqn:Hbatch;
    cbn [fst app].
  2:{ intros H. rewrite <- app_assoc in H. apply in_app_or in H as [H|H]; [tauto|not_in H]. }
  destruct (json res) as [result|msg]; cbn [fst app].
  2:{ intros H. rewrite <- app_assoc in H. apply in_app_or in H as [H|H]; [tauto|not_in H]. }
  destruct (ok res) eqn:Hok; cbn [negb fst app].
  2:{ intros H. apply in_app_or in H as [H|H]; [tauto|not_in H]. }
  intros _. exists token, (d :: data), res. split; [discriminate|].
  split; [|split; [exact Hbatch | exact Hok]].
  rewrite <- ?app_assoc. apply in_or_app. right. cbn. tauto.
Qed.

Lemma updateLead_success_only_after_write_witness :
  exists token data res,
    data <> []
    /\ In (Net (batchRequest Examples.client token data))
          (trace (updateLead (Examples.worldOf Examples.sheetT1 Examples.written)
                    Examples.client "T1" [("status", Some "Hot Leads")]))
    /\ net (Examples.worldOf Examples.sheetT1 Examples.written)
         (batchRequest Examples.client token data) = Ok res
    /\ ok res = true.
Proof.
  apply (updateLead_success_only_after_write
           (Examples.worldOf Examples.sheetT1 Examples.written) Examples.client
           "T1" [("status", Some "Hot Leads")]).
  vm_compute. tauto.
Defined.

(** The effects of [appendLead] are network calls only. *)
Lemma appendLead_only_calls (w : world) (this : t) (lead : object) (e : event) :
  In e (trace (appendLead w this lead)) -> exists req, e = Net req.
Proof.
  intros H.
  assert (forall e, In e (trace (getAccessToken w this)) -> exists req, e = Net req) as T.
  { intros e' He'. destruct (getAccessToken_trace w this) as [E | [jwt E]];
      rewrite E in He'; [destruct He'|]. destruct He' as [<- | []]. eauto. }
  destruct (getAccessToken w this) as [tr0 [token|msg]] eqn:Htok; cbn [trace fst] in T.
  - destruct (recordToRow (now w) (columnMappings this) lead) as [row|msg] eqn:Hrow.
    + rewrite (appendLead_posts w this lead tr0 token row Htok Hrow) in H.
      cbn [trace fst] in H. apply in_app_or in H as [H | [<- | []]]; eauto.
    + unfold appendLead in H. rewrite Htok in H. revert H. run. rewrite Hrow.
      cbn [fst app]. rewrite app_nil_r. apply T.
  - rewrite (appendLead_token_failed w this lead tr0 msg Htok) in H. now apply T.
Qed.

(** X5. [handleSubmit] never throws and brackets its work between
    saving on and saving off, whatever the host defines.  Where the sheets
    service that it constructs performs network calls only, the success
    toast, [onSuccess] and [onClose] happen exactly when [authLib] and
    [GoogleSheetsBackendService] are both defined, both calls on them
    return, the name of the session's user can be read, and the service's
    [appendLead] returned normally: every other submit leaves the dialog
    open. *)
Theorem handleSubmit_closes_on_success (g : globals) (w : world) (f : formData) :
  (forall service, GoogleSheetsBackendService g = Some (Ok service) -> onlyCalls service) ->
  let submitted := handleSubmit g w f in
  let appended :=
    exists session service name,
      authLib g = Some (Ok session)
      /\ GoogleSheetsBackendService g = Some (Ok service)
      /\ userName session = Ok name
      /\ outcome (service (leadOfForm w name f)) = Ok tt in
  outcome submitted = Ok tt
  /\ (exists middle, trace submitted = SetSaving true :: middle ++ [SetSaving false])
  /\ (In OnClose (trace submitted) <-> appended)
  /\ (In OnSuccess (trace submitted) <-> appended)
  /\ (In (Toast DefaultToast "Lead added successfully"
            "The lead has been added to Google Sheets") (trace submitted) <-> appended).
Proof.
  intros Hcalls. cbn zeta.
  assert (forall e,
            handleSubmit g w f =
              ([ SetSaving true;
                 if truthy (errorMessage e) && includes (errorMessage e) "protected"
                 then SetShowProtectionError true
                 else Toast DestructiveToast "Error adding lead" (errorMessage e);
                 SetSaving false ], Ok tt) ->
            ~ (exists session service name,
                 authLib g = Some (Ok session)
                 /\ GoogleSheetsBackendService g = Some (Ok service)
                 /\ userName session = Ok name
                 /\ outcome (service (leadOfForm w name f)) = Ok tt) ->
            outcome (handleSubmit g w f) = Ok tt
            /\ (exists middle,
                  trace (handleSubmit g w f) = SetSaving true :: middle ++ [SetSaving false])
            /\ (In OnClose (trace (handleSubmit g w f)) <->
                exists session service name,
                  authLib g = Some (Ok session)
                  /\ GoogleSheetsBackendService g = Some (Ok service)
                  /\ userName session = Ok name
                  /\ outcome (service (leadOfForm w name f)) = Ok tt)
            /\ (In OnSuccess (trace (handleSubmit g w f)) <->
                exists session service name,
                  authLib g = Some (Ok session)
                  /\ GoogleSheetsBackendService g = Some (Ok service)
                  /\ userName session = Ok name
                  /\ outcome (service (leadOfForm w name f)) = Ok tt)
            /\ (In (Toast DefaultToast "Lead added successfully"
                      "The lead has been added to Google Sheets")
                   (trace (handleSubmit g w f)) <->
                exists session service name,
                  authLib g = Some (Ok session)
                  /\ GoogleSheetsBackendService g = Some (Ok service)
                  /\ userName session = Ok name
                  /\ outcome (service (leadOfForm w name f)) = Ok tt)) as Hstopped.
  { intros e -> Hnot. cbn [trace outcome fst snd].
    split; [reflexivity|]. split; [eexists [_]; reflexivity|].
    repeat split; try (intros H; now destruct Hnot);
      intros H; exfalso;
      destruct (truthy (errorMessage e) && includes (errorMessage e) "protected");
      not_in H. }
  destruct (authLib g) as [[session|e1]|] eqn:Hauth.
  2:{ apply (Hstopped e1).
      - apply handleSubmit_stopped. left. now rewrite Hauth.
      - intros (? & ? & ? & [=] & _). }
  2:{ apply (Hstopped (mkError "ReferenceError" "authLib is not defined")).
      - apply handleSubmit_stopped. left. now rewrite Hauth.
      - intros (? & ? & ? & [=] & _). }
  destruct (GoogleSheetsBackendService g) as [[service|e2]|] eqn:Hservice.
  2:{ apply (Hstopped e2).
      - apply handleSubmit_stopped. right. exists session. rewrite Hauth, Hservice.
        split; [reflexivity|]. now left.
      - intros (? & ? & ? & _ & [=] & _). }
  2:{ apply (Hstopped (mkError "ReferenceError" "GoogleSheetsBackendService is not defined")).
      - apply handleSubmit_stopped. right. exists session. rewrite Hauth, Hservice.
        split; [reflexivity|]. now left.
      - intros (? & ? & ? & _ & [=] & _). }
  destruct (userName session) as [name|e3] eqn:Hname.
  2:{ apply (Hstopped e3).
      - apply handleSubmit_stopped. right. exists session. rewrite Hauth, Hservice.
        split; [reflexivity|]. right. now exists service.
      - intros (? & ? & ? & [= <-] & _ & Hname' & _). congruence. }
  specialize (Hcalls service eq_refl (leadOfForm w name f)).
  destruct (service (leadOfForm w name f)) as [tr [[]|msg]] eqn:E;
    cbn [trace outcome fst snd] in *.
  - rewrite (handleSubmit_returned g w f session name service tr Hauth Hservice Hname E).
    cbn [fst snd].
    split; [reflexivity|]. split.
    { eexists (tr ++ [_; _; _]). now rewrite <- app_assoc. }
    assert (exists session' service' name',
              Some (Ok session) = Some (Ok session')
              /\ Some (Ok service) = Some (Ok service')
              /\ userName session' = Ok name'
              /\ (service' (leadOfForm w name' f)).2 = Ok tt) as Happended.
    { exists session, service, name. now rewrite E. }
    repeat split; try (intros _; exact Happended);
      intros _; right; apply in_or_app; right; cbn; tauto.
  - rewrite (handleSubmit_thrown g w f session name service tr msg Hauth Hservice Hname E).
    cbn [fst snd].
    split; [reflexivity|]. split.
    { eexists (tr ++ [_]). now rewrite <- app_assoc. }
    repeat split;
      try (intros (session' & service' & name' & [= <-] & [= <-] & Hname' & Hok);
           rewrite Hname in Hname'; injection Hname' as <-;
           rewrite E in Hok; discriminate Hok);
      intros H; exfalso;
      (destruct H as [H|H]; [differ H|]);
      (apply in_app_or in H as [H|H];
       [ destruct (Hcalls _ H) as [req Hreq]; differ Hreq
       | destruct (truthy (errorMessage msg) && includes (errorMessage msg) "protected");
         not_in H ]).
Qed.

(** A host that binds the two names to a session of "Ravi" and to the
    sheets client of this repository, on a sheet that accepts the append:
    the dialog closes. *)
Lemma handleSubmit_closes_on_success_witness :
  In OnClose
    (trace
       (handleSubmit
          (Globals (Some (Ok (Some (Session (Some (Some "Ravi"))))))
             (Some (Ok (appendLead (Examples.worldOf Examples.sheetT1 Examples.written)
                          Examples.client))))
          (Examples.worldOf Examples.sheetT1 Examples.written) Examples.form)).
Proof.
  apply (handleSubmit_closes_on_success
           (Globals (Some (Ok (Some (Session (Some (Some "Ravi"))))))
              (Some (Ok (appendLead (Examples.worldOf Examples.sheetT1 Examples.written)
                           Examples.client))))
           (Examples.worldOf Examples.sheetT1 Examples.written) Examples.form).
  - intros service [= <-]. intros lead e. apply appendLead_only_calls.
  - eexists _, _, _. split; [reflexivity|]. split; [reflexivity|].
    split; reflexivity.
Defined.

End Reports.

(** ** Column addresses, sheet identifiers and row numbers *)

Section Addresses.

Lemma charCode_inj (x y : ascii) : charCode x = charCode y -> x = y.
Proof.
  unfold charCode. intros H. apply Nat2Z.inj in H.
  rewrite <- (ascii_nat_embedding x), <- (ascii_nat_embedding y). now rewrite H.
Qed.

Lemma alphaLtb_trichotomy (a b : string) :
  String.length a = String.length b ->
  a = b \/ alphaLtb a b = true \/ alphaLtb b a = true.
Proof.
  revert b; induction a as [|x a IH]; intros [|y b]; cbn [String.length alphaLtb];
    try discriminate; [now left|].
  intros [= Hlen].
  destruct (Z.lt_trichotomy (charCode x) (charCode y)) as [H | [H | H]].
  - right. left. apply orb_true_iff. left. lia.
  - apply charCode_inj in H as ->. destruct (IH b Hlen) as [-> | [H | H]].
    + now left.
    + right. left. rewrite H, Z.eqb_refl. apply orb_true_r.
    + right. right. rewrite H, Z.eqb_refl. apply orb_true_r.
  - right. right. apply orb_true_iff. left. lia.
Qed.

Lemma columnLtb_trichotomy (a b : string) :
  a = b \/ columnLtb a b = true \/ columnLtb b a = true.
Proof.
  unfold columnLtb.
  destruct (Nat.lt_trichotomy (String.length a) (String.length b)) as [H | [H | H]].
  - right. left. apply orb_true_iff. left. now apply Nat.ltb_lt.
  - destruct (alphaLtb_trichotomy a b H) as [-> | [L | L]]; [now left | |].
    + right. left. rewrite L, H, Nat.eqb_refl. apply orb_true_r.
    + right. right. rewrite L, H, Nat.eqb_refl. apply orb_true_r.
  - right. right. apply orb_true_iff. left. now apply Nat.ltb_lt.
Qed.

(** X6. Two different column addresses of up to eleven letters never
    resolve to the same index, and the index of a non-empty one is not
    negative: under a mapping with distinct uppercase columns of up to
    eleven letters no two fields share a cell.  (Longer addresses leave
    the integers that doubles hold exactly, and do collide.) *)
Theorem columnToIndex_injective (a b : string) :
  isColumn a = true -> isColumn b = true ->
  (String.length a <= 11)%nat -> (String.length b <= 11)%nat ->
  a <> b ->
  columnToIndex a <> columnToIndex b
  /\ (a <> "" -> 0 <= columnToIndex a).
Proof.
  intros Ha Hb La Lb Hne. split.
  - destruct (columnLtb_trichotomy a b) as [-> | [H | H]]; [congruence | |].
    + pose proof (columnToIndex_lt a b Ha Hb Lb H). lia.
    + pose proof (columnToIndex_lt b a Hb Ha La H). lia.
  - intros Hnonempty. destruct a as [|x a]; [congruence|].
    pose proof (columnToIndex_lt "" (String x a) eq_refl Ha La eq_refl) as H.
    change (columnToIndex "") with (-1) in H. lia.
Qed.

Lemma columnToIndex_injective_witness :
  columnToIndex "Z" <> columnToIndex "AA" /\ ("Z" <> "" -> 0 <= columnToIndex "Z").
Proof.
  apply (columnToIndex_injective "Z" "AA");
    [reflexivity | reflexivity | cbn; lia | cbn; lia | discriminate].
Defined.

Lemma takeWhile_append (f : ascii -> bool) (id post : string) :
  allChars f id = true ->
  takeWhile f (id +:+ post) = id +:+ takeWhile f post.
Proof.
  induction id as [|c id IH]; cbn [allChars]; [reflexivity|].
  intros [Hc Hid]%andb_prop. rewrite !append_cons. cbn [takeWhile].
  now rewrite Hc, (IH Hid).
Qed.

Lemma startsWith_empty (s : string) : startsWith s "" = true.
Proof. now destruct s. Qed.

Lemma matchHere_starts (url id : string) :
  matchHere url = Some id -> startsWith url "/s" = true.
Proof. intros (_ & _ & post & ->)%matchHere_Some. reflexivity. Qed.

(** X7. For a URL that has the segment /spreadsheets/d/{id} and no "/s"
    before it, [extractSheetId] returns the identifier: the given run of
    identifier characters, extended by the identifier characters that
    follow it (the capture is greedy) and stopped by the first other
    character. *)
Theorem extractSheetId_of_sheet_url (pre id post : string) :
  includes pre "/s" = false ->
  id <> "" -> allChars isIdChar id = true ->
  extractSheetId (pre +:+ "/spreadsheets/d/" +:+ id +:+ post)
  = id +:+ takeWhile isIdChar post.
Proof.
  intros Hpre Hne Hall. unfold extractSheetId.
  assert (matchHere ("/spreadsheets/d/" +:+ id +:+ post)
          = Some (id +:+ takeWhile isIdChar post)) as Hhere.
  { unfold matchHere. rewrite stripPrefix_append, (takeWhile_append _ _ _ Hall).
    destruct id as [|c id]; [congruence|]. now rewrite append_cons. }
  induction pre as [|c pre IH].
  - rewrite append_nil. now rewrite (matchSheetId_here _ _ Hhere).
  - cbn [includes] in Hpre. apply orb_false_elim in Hpre as [Hc Hpre].
    rewrite append_cons. cbn [matchSheetId].
    destruct (matchHere (String c (pre +:+ _))) as [id'|] eqn:E; [|exact (IH Hpre)].
    apply matchHere_starts in E. exfalso.
    destruct pre as [|d pre].
    + rewrite append_nil in E. cbn [startsWith] in *.
      destruct (Ascii.eqb c "/"); [|discriminate]. discriminate E.
    + rewrite append_cons in E. cbn [startsWith] in *.
      rewrite startsWith_empty in Hc, E.
      destruct (Ascii.eqb c "/"), (Ascii.eqb d "s"); congruence.
Qed.

Lemma extractSheetId_of_sheet_url_witness :
  extractSheetId "https://docs.google.com/spreadsheets/d/abc-123_X/edit#gid=0"
  = "abc-123_X".
Proof.
  apply (extractSheetId_of_sheet_url "https://docs.google.com" "abc-123_X" "/edit#gid=0");
    [reflexivity | discriminate | reflexivity].
Defined.

(** X8. The row number of a found key lies in the rows that were read:
    from 2, the first data row, to the row of the last cell of the key
    column. *)
Theorem findRowByKey_bounds (tripId : string) (colVals : list string) (r : Z) :
  findRowByKey tripId colVals = Some r ->
  2 <= r <= Z.of_nat (length colVals) + 1.
Proof.
  intros (i & -> & Hi & _)%findRowByKey_first.
  apply lookup_lt_Some in Hi. lia.
Qed.

Lemma findRowByKey_bounds_witness : 2 <= 4 <= Z.of_nat (length ["T0"; "T1"; "T2"]) + 1.
Proof. apply (findRowByKey_bounds "T2" ["T0"; "T1"; "T2"] 4). reflexivity. Defined.

(** X9. The pairs of a batch write: a range and value is written exactly
    when the update has a defined value under a key whose mapping entry is
    a non-empty column; the range is that column in the given row of the
    worksheet, the value the update's.  There are never more pairs than
    entries in the update. *)
Theorem recordToCellWrites_exact (ws : string) (cm : mapping) (updates : object)
    (rowNumber : Z) :
  (forall range val,
     In (range, val) (recordToCellWrites ws cm updates rowNumber) <->
     exists key v col,
       In (key, Some v) updates /\ assoc key cm = Some col /\ col <> ""
       /\ range = ws +:+ "!" +:+ col +:+ numberToString rowNumber /\ val = Some v)
  /\ (length (recordToCellWrites ws cm updates rowNumber) <= length updates)%nat.
Proof.
  unfold recordToCellWrites. split.
  - intros range val. rewrite in_map_iff. split.
    + intros ([key [v|]] & Hcell & [Hin Hkeep]%filter_In); unfold keepUpdate in Hkeep;
        cbn [fst snd] in Hkeep; [|discriminate].
      destruct (assoc key cm) as [col|] eqn:Hcol; [|discriminate].
      unfold cellWrite in Hcell. cbn [fst snd] in Hcell. rewrite Hcol in Hcell.
      injection Hcell as <- <-. exists key, v, col.
      repeat split; trivial. now apply truthy_nonempty.
    + intros (key & v & col & Hin & Hcol & Hne & -> & ->).
      exists (key, Some v). split.
      * unfold cellWrite. cbn [fst snd]. now rewrite Hcol.
      * apply filter_In. split; [exact Hin|]. unfold keepUpdate. cbn [fst snd].
        rewrite Hcol. now apply truthy_nonempty.
  - rewrite length_map. apply List.filter_length_le.
Qed.

End Addresses.

(** ** The shape of rows and records *)

Section Shapes.

Lemma arr_get_elems (a : array) (i : Z) (s : string) :
  is_index i = true -> arr_get a i = Some s ->
  elems a !! Z.to_nat i = Some (Some s).
Proof.
  unfold arr_get. intros ->. destruct (elems a !! Z.to_nat i) as [[c|]|]; cbn; congruence.
Qed.

(** Writing inside the array changes neither its length nor its
    properties. *)
Lemma appendCells_length (now : Z) (lead : object) (cm : mapping) (row : array) :
  (forall e, In e cm ->
     0 <= entryIndex e < MAX_ARRAY_LENGTH
     /\ (Z.to_nat (entryIndex e) < length (elems row))%nat) ->
  length (elems (fold_left (appendCell now lead) cm row)) = length (elems row)
  /\ props (fold_left (appendCell now lead) cm row) = props row.
Proof.
  revert row; induction cm as [|e cm IH]; intros row Hin; [now split|].
  cbn [fold_left].
  destruct (Hin e (or_introl eq_refl)) as [Hidx Hlen].
  assert (length (elems (appendCell now lead row e)) = length (elems row)
          /\ props (appendCell now lead row e) = props row) as [Hl Hp].
  { rewrite appendCell_written. destruct (writtenValue now lead e.1); [|now split].
    unfold arr_set, is_index.
    replace ((0 <=? entryIndex e) && (entryIndex e <? MAX_ARRAY_LENGTH)) with true by lia.
    apply Nat.ltb_lt in Hlen. rewrite Hlen. cbn [elems props].
    now rewrite length_insert. }
  destruct (IH (appendCell now lead row e)) as [IHl IHp].
  { intros e' He'. rewrite Hl. apply Hin. now right. }
  split; congruence.
Qed.

Lemma recordToRow_at_max (now : Z) (cm : mapping) (lead : object) (m : Z) :
  Math_max (map entryIndex cm) = Some m -> -1 <= m < MAX_ARRAY_LENGTH ->
  recordToRow now cm lead
  = Ok (fold_left (appendCell now lead) cm
          (Array (replicate (Z.to_nat (m + 1)) (Some "")) [])).
Proof.
  intros Hmax Hm. unfold recordToRow.
  change (fun e : string * string => columnToIndex e.2) with entryIndex.
  rewrite Hmax. cbn [fmap option_fmap option_map new_Array_fill].
  replace ((0 <=? m + 1) && (m + 1 <=? MAX_ARRAY_LENGTH)) with true by lia.
  reflexivity.
Qed.

(** X10. The row of the append direction, for a non-empty mapping whose
    columns resolve to pairwise distinct array indices: it has exactly
    (largest index + 1) cells and nothing else, the cell of every mapped
    field holds what the lead gives for it (the empty string for a field
    the lead does not define), and every cell that no field is mapped to
    holds the empty string.  No cell is a hole. *)
Theorem recordToRow_shape (now : Z) (cm : mapping) (lead : object) :
  cm <> [] ->
  NoDup (map entryIndex cm) ->
  (forall e, In e cm -> 0 <= entryIndex e < MAX_ARRAY_LENGTH) ->
  exists row m,
    recordToRow now cm lead = Ok row
    /\ Math_max (map entryIndex cm) = Some m
    /\ length (elems row) = Z.to_nat (m + 1)
    /\ props row = []
    /\ (forall e, In e cm ->
          elems row !! Z.to_nat (entryIndex e)
          = Some (Some (default "" (writtenValue now lead e.1))))
    /\ (forall i, (i < length (elems row))%nat ->
          (forall e, In e cm -> entryIndex e <> Z.of_nat i) ->
          elems row !! i = Some (Some "")).
Proof.
  intros Hne Hcols Hidx.
  destruct cm as [|e0 cm0] eqn:Ecm; [congruence|]. rewrite <- Ecm in *. clear Hne.
  assert (In e0 cm) as Hin0 by (rewrite Ecm; now left).
  destruct (Math_max_spec (map entryIndex cm) (entryIndex e0)) as (m & Hmax & Hmin & Hub).
  { now apply in_map. }
  assert (0 <= m < MAX_ARRAY_LENGTH) as Hm.
  { apply in_map_iff in Hmin as (em & <- & Hem). now apply Hidx. }
  assert (forall e, In e cm -> 0 <= entryIndex e <= m) as Hle.
  { intros e He. split; [now apply Hidx | apply Hub; now apply in_map]. }
  set (row0 := Array (replicate (Z.to_nat (m + 1)) (Some "")) []).
  destruct (appendCells_length now lead cm row0) as [Hlen Hprops].
  { intros e He. cbn [elems row0]. rewrite length_replicate.
    specialize (Hidx e He). specialize (Hle e He). lia. }
  cbn [elems props row0] in Hlen, Hprops. rewrite length_replicate in Hlen.
  exists (fold_left (appendCell now lead) cm row0), m.
  split; [now apply recordToRow_at_max; [|lia]|]. split; [exact Hmax|].
  split; [exact Hlen|]. split; [exact Hprops|]. split.
  - intros e He. apply arr_get_elems.
    + unfold is_index. specialize (Hidx e He). lia.
    + rewrite (appendCells_own now lead cm row0 e Hcols He).
      destruct (writtenValue now lead e.1); [reflexivity|].
      apply arr_get_filled; [|lia]. specialize (Hle e He). lia.
  - intros i Hi Hfree. rewrite Hlen in Hi.
    rewrite <- (Nat2Z.id i). apply arr_get_elems.
    + unfold is_index. lia.
    + rewrite appendCells_other by exact Hfree. apply arr_get_filled; lia.
Qed.

Lemma recordToRow_shape_witness :
  exists row m,
    recordToRow 1700000000000 [("tripId", "A"); ("status", "D")]
      [("status", Some "Hot Leads"); ("phone", Some "5550100")] = Ok row
    /\ Math_max (map entryIndex [("tripId", "A"); ("status", "D")]) = Some m
    /\ length (elems row) = Z.to_nat (m + 1)
    /\ elems row !! 3%nat = Some (Some "Hot Leads")
    /\ elems row !! 1%nat = Some (Some "").
Proof.
  destruct (recordToRow_shape 1700000000000 [("tripId", "A"); ("status", "D")]
              [("status", Some "Hot Leads"); ("phone", Some "5550100")])
    as (row & m & Hrow & Hmax & Hlen & _ & Hown & Hother).
  - discriminate.
  - apply (bool_decide_unpack _). vm_compute. exact I.
  - intros e [<- | [<- | []]]; vm_compute; split; congruence.
  - exists row, m. repeat (split; [assumption|]). split.
    + apply (Hown ("status", "D")). cbn. tauto.
    + injection Hmax as <-. apply Hother.
      * rewrite Hlen. vm_compute. lia.
      * intros e [<- | [<- | []]]; vm_compute; discriminate.
Defined.

Lemma obj_set_fresh (o : object) (k : string) (v : option string) :
  ~ In k (map fst o) -> obj_set o k v = o ++ [(k, v)].
Proof.
  induction o as [|[k0 v0] o IH]; cbn [map fst In obj_set]; [reflexivity|].
  intros H. destruct (String.eqb k k0) eqn:E.
  - apply String.eqb_eq in E as ->. exfalso. apply H. now left.
  - cbn [app]. rewrite IH; [reflexivity|]. intros Hin. apply H. now right.
Qed.

Lemma rowToRecord_keys (cm : mapping) (row : array) :
  NoDup (map fst cm) -> map fst (rowToRecord cm row) = map fst cm.
Proof.
  unfold rowToRecord. intros Hnd.
  enough (forall acc : object,
    (forall k, In k (map fst acc) -> ~ In k (map fst cm)) ->
    map fst (fold_left
      (fun lead e => obj_set lead e.1 (Some (or_else (arr_get row (columnToIndex e.2)) "")))
      cm acc) = map fst acc ++ map fst cm) as H.
  { apply (H []). intros k []. }
  induction cm as [|[k0 c0] cm IH]; intros acc Hacc; cbn [fold_left map fst snd].
  - now rewrite app_nil_r.
  - apply NoDup_cons in Hnd as [Hk0 Hnd].
    rewrite obj_set_fresh.
    2:{ intros Hin. apply (Hacc k0 Hin). now left. }
    rewrite (IH Hnd).
    + rewrite map_app. cbn [map fst]. now rewrite <- app_assoc.
    + intros k Hk. rewrite map_app in Hk. cbn [map fst] in Hk.
      apply in_app_or in Hk as [Hk | [<- | []]].
      * intros Hin. apply (Hacc k Hk). now right.
      * now rewrite <- list_elem_of_In.
Qed.

(** X11. The record that [fetchLeads] builds from a row of cells, under a
    mapping with distinct keys: it has exactly the keys of the mapping, in
    the mapping's order, and under each key the cell of the mapped column,
    or the empty string when the row is too short for the column or the
    column resolves to no array index. *)
Theorem rowToRecord_reads (cm : mapping) (cells : list string) :
  NoDup (map fst cm) ->
  map fst (rowToRecord cm (arr_of_list cells)) = map fst cm
  /\ forall key col, In (key, col) cm ->
       obj_get (rowToRecord cm (arr_of_list cells)) key
       = Some (if is_index (columnToIndex col)
               then default "" (cells !! Z.to_nat (columnToIndex col))
               else "").
Proof.
  intros Hnd. split; [now apply rowToRecord_keys|].
  intros key col Hin. rewrite (rowToRecord_get cm _ key col Hnd Hin).
  unfold arr_get, arr_of_list. cbn [elems props prop_get].
  destruct (is_index (columnToIndex col)); [|reflexivity].
  rewrite list_lookup_fmap.
  destruct (cells !! Z.to_nat (columnToIndex col)) as [s|]; [|reflexivity].
  cbn. f_equal. now destruct s.
Qed.

Lemma rowToRecord_reads_witness :
  map fst (rowToRecord [("tripId", "A"); ("status", "D")] (arr_of_list ["T7"; "x"]))
  = ["tripId"; "status"]
  /\ obj_get (rowToRecord [("tripId", "A"); ("status", "D")] (arr_of_list ["T7"; "x"]))
       "status" = Some "".
Proof.
  destruct (rowToRecord_reads [("tripId", "A"); ("status", "D")] ["T7"; "x"]) as [Hk Hv].
  - apply (bool_decide_unpack _). vm_compute. exact I.
  - split; [exact Hk|]. apply (Hv "status" "D"). cbn. tauto.
Defined.

(** Every key of the mapping is defined in the record, distinct keys or
    not. *)
Lemma rowToRecord_defined (cm : mapping) (row : array) (key : string) :
  In key (map fst cm) -> exists s, obj_get (rowToRecord cm row) key = Some s.
Proof.
  unfold rowToRecord.
  set (step := fun (lead : object) (e : string * string) =>
                 obj_set lead e.1 (Some (or_else (arr_get row (columnToIndex e.2)) ""))).
  assert (forall cm acc, (exists s, obj_get acc key = Some s) ->
            exists s, obj_get (fold_left step cm acc) key = Some s) as Hkeep.
  { intros cm'. induction cm' as [|e cm' IH]; intros acc Hacc; [exact Hacc|].
    cbn [fold_left]. apply IH. unfold step at 1. rewrite obj_get_set.
    destruct (String.eqb key e.1); [eauto | exact Hacc]. }
  generalize (@nil (string * option string)).
  induction cm as [|e cm IH]; intros acc Hin; [destruct Hin|].
  cbn [fold_left]. destruct Hin as [<- | Hin]; [|now apply IH].
  apply Hkeep. unfold step. rewrite obj_get_set, String.eqb_refl. eauto.
Qed.

(** X12. With an empty column mapping [appendLead] still exchanges the
    token, then throws while it allocates the row ([Math.max] of nothing);
    no append request is sent. *)
Theorem appendLead_empty_mapping (w : world) (this : t) (lead : object) tr0 token :
  columnMappings this = [] ->
  getAccessToken w this = (tr0, Ok token) ->
  exists msg, appendLead w this lead = (tr0, Throw msg).
Proof.
  intros Hcm Htok. exists (mkError "RangeError" "Invalid array length").
  unfold appendLead. rewrite Htok, Hcm. run. cbn. now rewrite app_nil_r.
Qed.

Lemma appendLead_empty_mapping_witness :
  exists msg,
    appendLead (Examples.worldOf Examples.sheetT1 Examples.written)
      (GoogleSheets.Make "abc" ["Sheet"] [] "{service account}" "key")
      [("status", Some "Hot Leads")]
    = ([Net (tokenRequest "jwt")], Throw msg).
Proof.
  apply (appendLead_empty_mapping (Examples.worldOf Examples.sheetT1 Examples.written)
           (GoogleSheets.Make "abc" ["Sheet"] [] "{service account}" "key")
           [("status", Some "Hot Leads")] [Net (tokenRequest "jwt")] (Some "tok"));
    reflexivity.
Defined.

End Shapes.

(** * Properties of the dashboards *)

(** ** The stats cards *)

Section Stats.

Import DashboardStats.

Lemma filter_length_b2n {A : Type} (p : A -> bool) (x : A) (l : list A) :
  length (List.filter p (x :: l)) = (Nat.b2n (p x) + length (List.filter p l))%nat.
Proof. cbn [List.filter]. now destruct (p x). Qed.

(** A lead whose status is one of the options of the form falls under at
    most one card, and under exactly one unless it is an unfollowed lead
    without data. *)
Lemma stats_one_category (lead : object) (s : string) :
  obj_get lead "status" = Some s -> In s AddLeadDialog.LEAD_STATUSES ->
  (Nat.b2n (isNew lead) + Nat.b2n (isWorking lead) + Nat.b2n (isHot lead)
   + Nat.b2n (isBooked lead) <= 1)%nat
  /\ (hasData lead = true ->
      (Nat.b2n (isNew lead) + Nat.b2n (isWorking lead) + Nat.b2n (isHot lead)
       + Nat.b2n (isBooked lead) = 1)%nat).
Proof.
  intros Hs Hin. unfold isNew, isWorking, isHot, isBooked, statusOf. rewrite Hs.
  destruct (hasData lead);
    repeat (destruct Hin as [<- | Hin]; [vm_compute; split; [lia | reflexivity || discriminate]|]);
    destruct Hin.
Qed.

(** X13. When every lead carries one of the nine statuses of the form, the
    four category cards count disjoint groups of leads: their numbers add up
    to at most the total, to exactly the total when every lead has data, and
    the working and hot leads of the engagement figure are counted once. *)
Theorem stats_cards_disjoint (leads : list object) :
  (forall lead, In lead leads ->
     exists s, obj_get lead "status" = Some s /\ In s AddLeadDialog.LEAD_STATUSES) ->
  (length (newLeads leads) + length (workingLeads leads) + length (hotLeads leads)
   + length (bookedLeads leads) <= totalLeads leads)%nat
  /\ (activeEngagement leads <= totalLeads leads)%nat
  /\ ((forall lead, In lead leads -> hasData lead = true) ->
      (length (newLeads leads) + length (workingLeads leads) + length (hotLeads leads)
       + length (bookedLeads leads) = totalLeads leads)%nat).
Proof.
  unfold activeEngagement, totalLeads, newLeads, workingLeads, hotLeads, bookedLeads.
  induction leads as [|lead leads IH]; intros Hall; [cbn; repeat split; lia|].
  destruct IH as (IH1 & IH2 & IH3); [intros l Hl; apply Hall; now right|].
  destruct (Hall lead (or_introl eq_refl)) as (s & Hs & Hin).
  destruct (stats_one_category lead s Hs Hin) as [Hle Heq].
  rewrite !filter_length_b2n. cbn [length]. split; [lia|]. split; [lia|].
  intros Hdata. specialize (Heq (Hdata lead (or_introl eq_refl))).
  specialize (IH3 (fun l Hl => Hdata l (or_intror Hl))). lia.
Qed.

Lemma stats_cards_disjoint_witness :
  (activeEngagement
     [ [("status", Some "Hot Leads"); ("phone", Some "5550100")];
       [("status", Some "Follow-up Calls")];
       [("status", Some "Booked With Us")] ]
   <= 3)%nat.
Proof.
  apply (stats_cards_disjoint
           [ [("status", Some "Hot Leads"); ("phone", Some "5550100")];
             [("status", Some "Follow-up Calls")];
             [("status", Some "Booked With Us")] ]).
  intros lead [<- | [<- | [<- | []]]]; eexists; (split; [reflexivity|]); cbn; tauto.
Defined.

(** X14. The dialogs of the stats cards: the detail dialog and the hot
    leads dialog are never rendered together, none is rendered while no
    card is selected, and the dialog of a selected card lists exactly the
    leads that the number on the card counts. *)
Theorem stats_dialog_of_card (leads : list object) (selectedCategory : option StatCategory) :
  let shown := renderDialogs leads selectedCategory in
  (detailDialog shown = None \/ hotDialog shown = None)
  /\ (selectedCategory = None -> detailDialog shown = None /\ hotDialog shown = None)
  /\ (selectedCategory = Some hot ->
      detailDialog shown = None /\ hotDialog shown = Some (hotLeads leads))
  /\ (forall c, selectedCategory = Some c -> c <> hot ->
      hotDialog shown = None
      /\ exists card,
           In card (topStats leads) /\ category card = c
           /\ value card = length (statLeads card)
           /\ detailDialog shown = Some (title card, statLeads card, color card)).
Proof.
  cbn zeta. split; [|split; [|split]].
  - destruct selectedCategory as [[]|]; cbn; tauto.
  - intros ->. now split.
  - intros ->. now split.
  - intros c -> Hc. split; [now destruct c|].
    destruct c; try congruence;
      [ exists (Stat "Total Leads" (totalLeads leads) "text-primary" total leads)
      | exists (Stat "New/Unfollowed" (length (newLeads leads)) "text-blue-600" new
                  (newLeads leads))
      | exists (Stat "Working On" (length (workingLeads leads)) "text-warning" working
                  (workingLeads leads))
      | exists (Stat "Booked" (length (bookedLeads leads)) "text-success" booked
                  (bookedLeads leads)) ];
      (split; [unfold topStats; cbn [In]; auto 10 | repeat split]).
Qed.

Lemma stats_dialog_of_card_witness :
  hotDialog (renderDialogs [[("status", Some "Hot Leads")]; [("status", Some "Unfollowed")]]
               (Some new)) = None
  /\ exists card,
       In card (topStats [[("status", Some "Hot Leads")]; [("status", Some "Unfollowed")]])
       /\ category card = new
       /\ value card = length (statLeads card)
       /\ detailDialog
            (renderDialogs [[("status", Some "Hot Leads")]; [("status", Some "Unfollowed")]]
               (Some new))
          = Some (title card, statLeads card, color card).
Proof.
  apply (stats_dialog_of_card
           [[("status", Some "Hot Leads")]; [("status", Some "Unfollowed")]] (Some new));
    [reflexivity | discriminate].
Defined.

End Stats.

(** ** The filters, the tabs and the grid of the consultant's page *)

Section Page.

Import ConsultantDashboard.

(** A filter whose callback throws on no element returns, with elements
    of the list. *)
Lemma filterThrowing_ok {A : Type} (f : A -> result bool) (l : list A) :
  (forall x, In x l -> exists b, f x = Ok b) ->
  exists kept,
    filterThrowing f l = Ok kept
    /\ (forall x, In x kept -> In x l)
    /\ kept = List.filter (fun x => match f x with Ok b => b | Throw _ => false end) l.
Proof.
  induction l as [|x l IH]; intros Hall; [exists []; now repeat split|].
  destruct (Hall x (or_introl eq_refl)) as [b Hb].
  destruct IH as (kept & Hkept & Hsub & Hfilter); [intros y Hy; apply Hall; now right|].
  cbn [filterThrowing List.filter]. rewrite Hb, Hkept. cbn [andThen].
  eexists. split; [reflexivity|]. split.
  - destruct b; intros y Hy; [destruct Hy as [<- | Hy]; [now left|]|];
      right; now apply Hsub.
  - rewrite Hfilter. now destruct b.
Qed.

Lemma filterThrowing_throw {A : Type} (f : A -> result bool) (l : list A) (x : A) msg :
  In x l -> f x = Throw msg -> exists msg', filterThrowing f l = Throw msg'.
Proof.
  induction l as [|y l IH]; intros Hin Hx; [destruct Hin|].
  cbn [filterThrowing]. destruct Hin as [-> | Hin].
  - rewrite Hx. cbn. eauto.
  - destruct (f y) as [b|msg']; cbn [andThen]; [|eauto].
    destruct (IH Hin Hx) as [msg' ->]. cbn. eauto.
Qed.

(** X15. Without a search text the filter of the page reads no field that
    could be missing: it never throws and keeps the leads that pass the
    status, priority and date filters; with every filter at its initial
    value it keeps all leads. *)
Theorem filteredLeads_without_search (st pr d : string) (leads : list object) :
  filteredLeads (Filters "" st pr d) leads
  = Ok (List.filter
          (fun lead => matchesStatus st lead && matchesPriority pr lead && matchesDate d lead)
          leads)
  /\ filteredLeads (Filters "" "All Statuses" "All Priorities" "") leads = Ok leads.
Proof.
  unfold filteredLeads. split.
  - induction leads as [|lead leads IH]; [reflexivity|].
    cbn [filterThrowing List.filter]. rewrite IH.
    unfold keepLead at 1. cbn [searchQuery statusFilter priorityFilter dateFilter].
    cbn [matchesSearch truthy negb andThen andb].
    now destruct (matchesStatus st lead && matchesPriority pr lead && matchesDate d lead).
  - induction leads as [|lead leads IH]; [reflexivity|].
    cbn [filterThrowing]. rewrite IH. reflexivity.
Qed.

(** X16. With a search text, a lead without trip identifier makes the
    filter of the page throw: the search reads [lead.tripId.toLowerCase()]
    first. *)
Theorem filteredLeads_missing_tripId (q st pr d : string) (leads : list object)
    (lead : object) :
  q <> "" -> In lead leads -> obj_get lead "tripId" = None ->
  exists msg, filteredLeads (Filters q st pr d) leads = Throw msg.
Proof.
  intros Hq Hin Hnone. unfold filteredLeads.
  apply (filterThrowing_throw _ leads lead
           (mkError "TypeError"
              "Cannot read properties of undefined (reading 'toLowerCase')") Hin).
  unfold keepLead, matchesSearch. cbn [searchQuery].
  rewrite (proj2 (truthy_nonempty q) Hq), Hnone. reflexivity.
Qed.

Lemma filteredLeads_missing_tripId_witness :
  exists msg,
    filteredLeads (Filters "asha" "All Statuses" "All Priorities" "")
      [ [("tripId", Some "T1"); ("travellerName", Some "Asha"); ("phone", Some "1")];
        [("travellerName", Some "Ravi"); ("phone", Some "2")] ]
    = Throw msg.
Proof.
  apply (filteredLeads_missing_tripId "asha" "All Statuses" "All Priorities" ""
           _ [("travellerName", Some "Ravi"); ("phone", Some "2")]);
    [discriminate | cbn; tauto | reflexivity].
Defined.

Lemma keepLead_defined (f : filters) (lead : object) :
  (exists s, obj_get lead "tripId" = Some s) ->
  (exists s, obj_get lead "travellerName" = Some s) ->
  (exists s, obj_get lead "phone" = Some s) ->
  exists b, keepLead f lead = Ok b.
Proof.
  intros [t Ht] [n Hn] [p Hp]. unfold keepLead, matchesSearch.
  rewrite Ht, Hn, Hp. cbn [toLowerCaseOf includesOf andThen].
  destruct (negb (truthy (searchQuery f))); cbn [andThen]; [eauto|].
  destruct (includes (toLowerCase t) _); cbn [andThen]; [eauto|].
  destruct (includes (toLowerCase n) _); cbn [andThen]; eauto.
Qed.

Lemma statusHasAny_defined (ws : list string) (lead : object) :
  (exists s, obj_get lead "status" = Some s) -> exists b, statusHasAny ws lead = Ok b.
Proof.
  intros [s Hs]. induction ws as [|word ws IH]; cbn [statusHasAny]; [eauto|].
  rewrite Hs. cbn [toLowerCaseOf andThen]. destruct (includes _ word); eauto.
Qed.

(** What [fetchLeads] returns is the record of a row, one per row. *)
Lemma fetchLeads_records (w : world) (this : t) tr leads :
  fetchLeads w this = (tr, Ok leads) ->
  forall lead, In lead leads ->
    exists cells, lead = rowToRecord (columnMappings this) (arr_of_list cells).
Proof.
  unfold fetchLeads. run.
  destruct (net w (fetchRequest w this)) as [res|msg]; cbn [app]; [|discriminate].
  destruct (ok res); cbn [negb app]; [|discriminate].
  destruct (json res) as [data|msg]; cbn [app]; [|discriminate].
  intros [= _ <-] lead (cells & <- & _)%in_map_iff. eauto.
Qed.

(** X17. Leads fetched under a mapping that has the fields tripId,
    travellerName, phone and status never make the page throw: every
    fetched lead defines these fields (as a cell or as the empty string),
    so the filter returns for every filter state, and so do the three tabs
    on what it kept. *)
Theorem fetched_leads_filter_safely (w : world) (this : t) tr leads (f : filters) :
  fetchLeads w this = (tr, Ok leads) ->
  (forall key, In key ["tripId"; "travellerName"; "phone"; "status"] ->
     In key (map fst (columnMappings this))) ->
  (forall lead key, In lead leads -> In key (map fst (columnMappings this)) ->
     exists s, obj_get lead key = Some s)
  /\ exists kept fresh active won,
       filteredLeads f leads = Ok kept
       /\ (forall lead, In lead kept -> In lead leads)
       /\ newLeads kept = Ok fresh
       /\ workingLeads kept = Ok active
       /\ bookedLeads kept = Ok won.
Proof.
  intros Hfetch Hkeys.
  assert (forall lead key, In lead leads -> In key (map fst (columnMappings this)) ->
            exists s, obj_get lead key = Some s) as Hdef.
  { intros lead key Hlead Hkey.
    destruct (fetchLeads_records w this tr leads Hfetch lead Hlead) as [cells ->].
    now apply rowToRecord_defined. }
  split; [exact Hdef|].
  destruct (filterThrowing_ok (keepLead f) leads) as (kept & Hkept & Hsub & _).
  { intros lead Hlead.
    apply keepLead_defined; apply Hdef; try exact Hlead; apply Hkeys; cbn; tauto. }
  assert (forall ws, exists r, filterThrowing (statusHasAny ws) kept = Ok r) as Htab.
  { intros ws. destruct (filterThrowing_ok (statusHasAny ws) kept) as (r & Hr & _); [|eauto].
    intros lead Hlead. apply statusHasAny_defined, Hdef; [now apply Hsub|].
    apply Hkeys. cbn. tauto. }
  destruct (Htab ["unfollowed"; "follow-up"]) as [fresh Hfresh].
  destruct (Htab ["working"; "whatsapp"; "proposal"; "negotiations"; "hot"])
    as [active Hactive].
  destruct (Htab ["booked with us"]) as [won Hwon].
  exists kept, fresh, active, won. now repeat split.
Qed.

Lemma fetched_leads_filter_safely_witness :
  exists kept,
    filteredLeads (Filters "t7" "All Statuses" "All Priorities" "")
      [ [("tripId", Some "T7"); ("travellerName", Some "Asha"); ("phone", Some "");
         ("status", Some "")] ]
    = Ok kept.
Proof.
  destruct (fetched_leads_filter_safely
              (Examples.worldOf (Some [["T7"; "Asha"]]) Examples.written)
              (GoogleSheets.Make "abc" ["Sheet"]
                 [("tripId", "A"); ("travellerName", "B"); ("phone", "C"); ("status", "D")]
                 "" "key")
              [Net (fetchRequest (Examples.worldOf (Some [["T7"; "Asha"]]) Examples.written)
                      (GoogleSheets.Make "abc" ["Sheet"]
                         [("tripId", "A"); ("travellerName", "B"); ("phone", "C");
                          ("status", "D")] "" "key"))]
              [ [("tripId", Some "T7"); ("travellerName", Some "Asha"); ("phone", Some "");
                 ("status", Some "")] ]
              (Filters "t7" "All Statuses" "All Priorities" ""))
    as (_ & kept & _ & _ & _ & Hkept & _).
  - reflexivity.
  - intros key Hkey. cbn in *. tauto.
  - now exists kept.
Defined.

(** A lead whose status is one of the options of the form is shown under
    exactly one tab. *)
Lemma tabs_one_tab (lead : object) (s : string) :
  obj_get lead "status" = Some s -> In s AddLeadDialog.LEAD_STATUSES ->
  exists n a b,
    isNew lead = Ok n /\ isWorking lead = Ok a /\ isBooked lead = Ok b
    /\ (Nat.b2n n + Nat.b2n a + Nat.b2n b = 1)%nat.
Proof.
  intros Hs Hin. unfold isNew, isWorking, isBooked, statusHasAny. rewrite Hs.
  repeat (destruct Hin as [<- | Hin];
          [do 3 eexists; split; [reflexivity|]; split; [reflexivity|];
           split; reflexivity|]).
  destruct Hin.
Qed.

(** X18. When every lead that passed the filter carries one of the nine
    statuses of the form, the three tabs New, Working and Booked return and
    split those leads among them: their counts add up to the number of
    leads, each lead being under exactly one tab. *)
Theorem tabs_partition (kept : list object) :
  (forall lead, In lead kept ->
     exists s, obj_get lead "status" = Some s /\ In s AddLeadDialog.LEAD_STATUSES) ->
  exists fresh active won,
    newLeads kept = Ok fresh /\ workingLeads kept = Ok active
    /\ bookedLeads kept = Ok won
    /\ (length fresh + length active + length won = length kept)%nat.
Proof.
  unfold newLeads, workingLeads, bookedLeads.
  induction kept as [|lead kept IH]; intros Hall.
  - exists [], [], []. now repeat split.
  - destruct IH as (fresh & active & won & Hf & Ha & Hw & Hsum);
      [intros l Hl; apply Hall; now right|].
    destruct (Hall lead (or_introl eq_refl)) as (s & Hs & Hin).
    destruct (tabs_one_tab lead s Hs Hin) as (n & a & b & Hn & Hwk & Hb & Hone).
    cbn [filterThrowing]. rewrite Hn, Hwk, Hb, Hf, Ha, Hw. cbn [andThen].
    do 3 eexists. do 3 (split; [reflexivity|]).
    destruct n, a, b; cbn in Hone |- *; lia.
Qed.

Lemma tabs_partition_witness :
  exists fresh active won,
    newLeads [ [("status", Some "Follow-up Calls")]; [("status", Some "Hot Leads")] ]
      = Ok fresh
    /\ workingLeads [ [("status", Some "Follow-up Calls")]; [("status", Some "Hot Leads")] ]
      = Ok active
    /\ bookedLeads [ [("status", Some "Follow-up Calls")]; [("status", Some "Hot Leads")] ]
      = Ok won
    /\ (length fresh + length active + length won = 2)%nat.
Proof.
  apply (tabs_partition
           [ [("status", Some "Follow-up Calls")]; [("status", Some "Hot Leads")] ]).
  intros lead [<- | [<- | []]]; eexists; (split; [reflexivity|]); cbn; tauto.
Defined.

Lemma numberToString_inj (a b : Z) : numberToString a = numberToString b -> a = b.
Proof.
  unfold numberToString. intros H.
  assert (forall z, NilZero.int_of_string (NilZero.string_of_int (Z.to_int z))
                    = Some (Z.to_int z)) as Hback.
  { intros z. apply NilZero.isi; destruct z as [|p|p]; cbn; try discriminate;
      intros [= E]; now apply (DecimalPos.Unsigned.to_uint_nonnil p). }
  pose proof (Hback a) as Ha. rewrite H, Hback in Ha. injection Ha as Ha.
  rewrite <- (DecimalZ.of_to a), <- (DecimalZ.of_to b). now rewrite Ha.
Qed.

Lemma allDigits_no_dash (x y : string) : allDigits (x +:+ String "-" y) = false.
Proof.
  induction x as [|c x IH]; [reflexivity|].
  rewrite append_cons. cbn [allDigits]. rewrite IH. apply andb_false_r.
Qed.

(** A key determines its index: the text after the last dash. *)
Lemma dash_suffix_inj (a a' d d' : string) :
  allDigits d = true -> allDigits d' = true ->
  a +:+ String "-" d = a' +:+ String "-" d' -> d = d'.
Proof.
  intros Hd Hd'. revert a'; induction a as [|c a IH]; intros [|c' a'];
    rewrite ?append_nil, ?append_cons.
  - now intros [= ->].
  - intros [= _ E]. rewrite E, allDigits_no_dash in Hd. discriminate.
  - intros [= _ E]. rewrite <- E, allDigits_no_dash in Hd'. discriminate.
  - intros [= _ E]. now apply (IH a').
Qed.

Lemma cardKey_index (i j : nat) (li lj : object) :
  cardKey i li = cardKey j lj -> i = j.
Proof.
  unfold cardKey. rewrite !(append_cons "-" ""), !append_nil. intros H.
  apply dash_suffix_inj in H.
  - apply numberToString_inj in H. lia.
  - apply numberToString_digits. lia.
  - apply numberToString_digits. lia.
Qed.

(** X19. [renderLeadGrid] shows the spinner while loading, the empty
    notice for no leads, and otherwise one card per lead, in order; the
    React keys of the cards are pairwise distinct even when leads share a
    trip identifier or have none. *)
Theorem renderLeadGrid_keys (loading : bool) (leadsToRender : list object) :
  match renderLeadGrid loading leadsToRender with
  | Spinner => loading = true
  | NoLeads => loading = false /\ leadsToRender = []
  | Cards cards =>
      loading = false /\ leadsToRender <> []
      /\ map snd cards = leadsToRender /\ NoDup (map fst cards)
  end.
Proof.
  unfold renderLeadGrid. destruct loading; [reflexivity|].
  destruct leadsToRender as [|lead leads] eqn:E; [now split|]. rewrite <- E.
  replace (length leadsToRender =? 0)%nat with false by (rewrite E; reflexivity).
  split; [reflexivity|]. split; [rewrite E; discriminate|]. split.
  - apply list_eq. intros i. rewrite list_lookup_fmap, list_lookup_imap.
    now destruct (leadsToRender !! i).
  - apply NoDup_alt. intros i j key Hi Hj.
    rewrite list_lookup_fmap, list_lookup_imap in Hi, Hj.
    destruct (leadsToRender !! i) as [li|]; [|discriminate].
    destruct (leadsToRender !! j) as [lj|]; [|discriminate].
    cbn in Hi, Hj. injection Hi as Hi. injection Hj as Hj.
    apply (cardKey_index i j li lj). congruence.
Qed.

End Page.
